(** * The 2048 engine of [game.py]

    The class [Game2048] is modelled as a record, its methods as functions
    that take the instance ([self]) and return the updated instance.  Python
    integers are unbounded, so cells, the score and the board size are [Z].
    A method that can raise [IndexError] (an index outside a list) returns a
    [result]; the [while] loop of [_move_left] runs on fuel, and running out
    of it is a separate outcome that the theorems below rule out.  The two
    calls to the [random] module inside [add_new_tile] are made explicit as
    a [Draw] argument. *)

From Stdlib Require Import String ZArith List Bool Lia Arith.
Import ListNotations.

Local Open Scope Z_scope.

(** ** Outcomes of a method call *)

Inductive result (A : Type) : Type :=
| Ok (a : A)
| IndexError
| OutOfFuel.

Arguments Ok {A} a.
Arguments IndexError {A}.
Arguments OutOfFuel {A}.

Definition bind {A B : Type} (m : result A) (k : A -> result B) : result B :=
  match m with
  | Ok a => k a
  | IndexError => IndexError
  | OutOfFuel => OutOfFuel
  end.

Notation "x <- m ;; k" := (bind m (fun x => k))
  (at level 61, m at next level, right associativity).
Notation "' p <- m ;; k" := (bind m (fun x => match x with p => k end))
  (at level 61, p pattern, m at next level, right associativity).

(** ** Python lists *)

(** [l[i]] for a non-negative index. *)
Definition getitem {A : Type} (l : list A) (i : nat) : result A :=
  match nth_error l i with
  | Some x => Ok x
  | None => IndexError
  end.

(** [l[i] = x] for a non-negative index. *)
Fixpoint setitem {A : Type} (l : list A) (i : nat) (x : A) : result (list A) :=
  match l, i with
  | [], _ => IndexError
  | _ :: t, O => Ok (x :: t)
  | h :: t, S j => t' <- setitem t j x ;; Ok (h :: t')
  end.

(** [range(n)]: empty when [n <= 0]. *)
Definition range (n : Z) : list nat := seq 0 (Z.to_nat n).

(** A [for] loop whose body may [return]: the body answers [Next] to go on
    and [Return v] to leave the enclosing function with [v]. *)
Inductive flow (A : Type) : Type :=
| Next
| Return (v : A).

Arguments Next {A}.
Arguments Return {A} v.

Fixpoint for_in {X A : Type} (xs : list X) (body : X -> result (flow A))
  : result (flow A) :=
  match xs with
  | [] => Ok Next
  | x :: xs' =>
      match body x with
      | Ok Next => for_in xs' body
      | r => r
      end
  end.

(** A [for] loop that only updates local state. *)
Fixpoint for_acc {X S : Type} (xs : list X) (body : X -> S -> result S) (s : S)
  : result S :=
  match xs with
  | [] => Ok s
  | x :: xs' => s' <- body x s ;; for_acc xs' body s'
  end.

(** ** The game state *)

Definition Board : Type := list (list Z).

Record Game2048 : Type := mkGame {
  size : Z;
  board : Board;
  score : Z;
  win_value : Z;
  game_won : bool
}.

Definition set_board (self : Game2048) (b : Board) : Game2048 :=
  mkGame (size self) b (score self) (win_value self) (game_won self).

Definition set_score (self : Game2048) (s : Z) : Game2048 :=
  mkGame (size self) (board self) s (win_value self) (game_won self).

Definition set_game_won (self : Game2048) (w : bool) : Game2048 :=
  mkGame (size self) (board self) (score self) (win_value self) w.

(** [board[r][c]] *)
Definition cell (b : Board) (r c : nat) : result Z :=
  row <- getitem b r ;; getitem row c.

(** [board[r][c] = v] *)
Definition set_cell (b : Board) (r c : nat) (v : Z) : result Board :=
  row <- getitem b r ;;
  row' <- setitem row c v ;;
  setitem b r row'.

(** What one call of [add_new_tile] draws from the [random] module:
    [random.choice(empty_cells)] returns [empty_cells[k]] for some index [k]
    in range, here [choice mod len(empty_cells)], and [below_tenth] is the
    outcome of the test [random.random() < 0.1]. *)
Record Draw : Type := mkDraw {
  choice : nat;
  below_tenth : bool
}.

(** ** [add_new_tile] *)

Definition collect_empty_cells (self : Game2048) : result (list (nat * nat)) :=
  for_acc (range (size self))
    (fun r empty_cells =>
       for_acc (range (size self))
         (fun c empty_cells =>
            v <- cell (board self) r c ;;
            Ok (if v =? 0 then empty_cells ++ [(r, c)] else empty_cells))
         empty_cells)
    [].

Definition add_new_tile (rnd : Draw) (self : Game2048) : result Game2048 :=
  empty_cells <- collect_empty_cells self ;;
  match empty_cells with
  | [] => Ok self
  | _ :: _ =>
      ' (r, c) <- getitem empty_cells
                    (choice rnd mod length empty_cells)%nat ;;
      b <- set_cell (board self) r c (if below_tenth rnd then 4 else 2) ;;
      Ok (set_board self b)
  end.

(** ** [__init__] *)

Definition __init__ (size : Z) (rnd1 rnd2 : Draw) : result Game2048 :=
  let n := Z.to_nat size in
  let self := mkGame size (repeat (repeat 0 n) n) 0 2048 false in
  self <- add_new_tile rnd1 self ;;
  add_new_tile rnd2 self.

(** ** [is_game_over] *)

Definition is_game_over (self : Game2048) : result bool :=
  let b := board self in
  let n := size self in
  found <- for_in (range n) (fun r =>
             for_in (range n) (fun c =>
               v <- cell b r c ;;
               if v =? 0 then Ok (Return false) else Ok Next)) ;;
  match found with
  | Return v => Ok v
  | Next =>
      found <- for_in (range n) (fun r =>
                 for_in (range n) (fun c =>
                   right <- (if Z.of_nat c + 1 <? n
                             then x <- cell b r c ;;
                                  y <- cell b r (c + 1) ;;
                                  Ok (x =? y)
                             else Ok false) ;;
                   if right then Ok (Return false) else
                   below <- (if Z.of_nat r + 1 <? n
                             then x <- cell b r c ;;
                                  y <- cell b (r + 1) c ;;
                                  Ok (x =? y)
                             else Ok false) ;;
                   if below then Ok (Return false) else Ok Next)) ;;
      match found with
      | Return v => Ok v
      | Next => Ok true
      end
  end.

(** ** [_move_left], [_transpose], [_reverse] *)

(** The [while i < len(compressed_row)] loop.  The loop state is [i],
    [merged_row] and the two attributes the body updates, [self.score] and
    [self.game_won]. *)
Fixpoint merge_loop (fuel : nat) (win : Z) (compressed_row : list Z)
    (i : nat) (merged_row : list Z) (sc : Z) (won : bool)
  : result (list Z * Z * bool) :=
  if (i <? length compressed_row)%nat then
    match fuel with
    | O => OutOfFuel
    | S fuel' =>
        mergeable <- (if (i + 1 <? length compressed_row)%nat
                      then x <- getitem compressed_row i ;;
                           y <- getitem compressed_row (i + 1) ;;
                           Ok (x =? y)
                      else Ok false) ;;
        if mergeable then
          x <- getitem compressed_row i ;;
          let merged_val := x * 2 in
          merge_loop fuel' win compressed_row (i + 2)
            (merged_row ++ [merged_val]) (sc + merged_val)
            (if negb won && (merged_val =? win) then true else won)
        else
          x <- getitem compressed_row i ;;
          merge_loop fuel' win compressed_row (i + 1)
            (merged_row ++ [x]) sc won
    end
  else Ok (merged_row, sc, won).

(** The body of [for row in board]. *)
Definition move_left_row (self : Game2048) (row : list Z)
  : result (list Z * Game2048) :=
  let compressed_row := filter (fun i => negb (i =? 0)) row in
  ' (merged_row, sc, won) <-
      merge_loop (length compressed_row) (win_value self) compressed_row
        0 [] (score self) (game_won self) ;;
  let merged_row :=
    merged_row ++ repeat 0 (Z.to_nat (size self - Z.of_nat (length merged_row))) in
  Ok (merged_row, set_game_won (set_score self sc) won).

Definition _move_left (self : Game2048) (b : Board) : result (Board * Game2048) :=
  for_acc b
    (fun row '(new_board, self) =>
       ' (merged_row, self) <- move_left_row self row ;;
       Ok (new_board ++ [merged_row], self))
    ([], self).

(** [zip] over the rows of the board stops at the shortest row, and yields
    nothing when the board has no row. *)
Definition shortest (b : Board) : nat :=
  match b with
  | [] => O
  | row :: rest => fold_right Nat.min (length row) (map (@length Z) rest)
  end.

Definition _transpose (b : Board) : Board :=
  map (fun j => map (fun row => nth j row 0) b) (seq 0 (shortest b)).

Definition _reverse (b : Board) : Board := map (@rev Z) b.

(** ** [move] *)

(** The [if]/[elif] chain of [move]: [None] is the final [else] branch. *)
Definition move_dispatch (direction : string) (self : Game2048)
  : result (option Game2048) :=
  if String.eqb direction "w"%string then
    let temp_board := _transpose (board self) in
    ' (temp_board, self) <- _move_left self temp_board ;;
    Ok (Some (set_board self (_transpose temp_board)))
  else if String.eqb direction "s"%string then
    let temp_board := _transpose (board self) in
    let temp_board := _reverse temp_board in
    ' (temp_board, self) <- _move_left self temp_board ;;
    let temp_board := _reverse temp_board in
    Ok (Some (set_board self (_transpose temp_board)))
  else if String.eqb direction "a"%string then
    ' (new_board, self) <- _move_left self (board self) ;;
    Ok (Some (set_board self new_board))
  else if String.eqb direction "d"%string then
    let temp_board := _reverse (board self) in
    ' (temp_board, self) <- _move_left self temp_board ;;
    Ok (Some (set_board self (_reverse temp_board)))
  else Ok None.

(** [self.board == original_board]: equality of lists of lists of integers. *)
Definition Board_eq_dec : forall a b : Board, {a = b} + {a <> b} :=
  list_eq_dec (list_eq_dec Z.eq_dec).

Definition move (direction : string) (rnd : Draw) (self : Game2048)
  : result (bool * Game2048) :=
  let original_board := board self in
  dispatched <- move_dispatch direction self ;;
  match dispatched with
  | None => Ok (false, self)
  | Some self =>
      if Board_eq_dec (board self) original_board then Ok (false, self)
      else
        self <- add_new_tile rnd self ;;
        Ok (true, self)
  end.

(** The four keys the [if]/[elif] chain knows, as in the test
    [move not in ['w', 'a', 's', 'd']] of [main]. *)
Definition valid_direction (direction : string) : bool :=
  String.eqb direction "w"%string || String.eqb direction "s"%string
  || String.eqb direction "a"%string || String.eqb direction "d"%string.

(** ** [get_board_size_from_config]

    The function opens and parses the configuration file and then validates
    the value under the key [board_size].  The outcome of opening and
    parsing is an argument ([LoadResult]).  Of the messages the function
    prints, the model keeps what decides the control flow: whether the text
    of a message that shows a value can be built ([text_ok]); an f-string
    over an integer too long to be printed raises [ValueError].  Writing a
    built message to the terminal is taken to succeed.  Exceptions the
    function does not catch end it ([inr]). *)

Definition DEFAULT_SIZE : Z := 4.

(** A float, by what [int()] makes of it. *)
Inductive PyFloat : Type :=
| Finite (truncated : Z)
| NaN
| Infinity.

(** The values [yaml.safe_load] returns. *)
#[warnings="-register-all"] Inductive PyValue : Type :=
| PyNone
| PyBool (b : bool)
| PyInt (z : Z)
| PyFloatValue (f : PyFloat)
| PyStr (s : string)
| PyBytes (s : string)
| PyList (items : list PyValue)
| PyDict (entries : list (PyValue * PyValue))
| PyOther.

(** [with open(CONFIG_FILE_NAME, 'r') as f: config = yaml.safe_load(f)].
    A YAML error carries whether its text, which the handler prints, can be
    built. *)
Inductive LoadResult : Type :=
| LoadFileNotFoundError
| LoadYAMLError (message_ok : bool)
| LoadOtherError
| Loaded (config : PyValue).

Inductive IntResult : Type :=
| IntOk (z : Z)
| IntValueError
| IntTypeError
| IntOverflowError.

(** Exceptions that leave [get_board_size_from_config] or [main].
    [UncaughtMessageError] is raised while an exception handler builds the
    text of its message. *)
Inductive Uncaught : Type :=
| UncaughtLoadError
| UncaughtOverflowError
| UncaughtMessageError
| UncaughtEOFError
| UncaughtEngineError.

(** [int(v)].  How Python reads an integer out of text is the argument
    [int_of_text], [None] standing for [ValueError]. *)
Definition py_int (int_of_text : string -> option Z) (v : PyValue) : IntResult :=
  match v with
  | PyBool b => IntOk (if b then 1 else 0)
  | PyInt z => IntOk z
  | PyFloatValue (Finite z) => IntOk z
  | PyFloatValue NaN => IntValueError
  | PyFloatValue Infinity => IntOverflowError
  | PyStr s | PyBytes s =>
      match int_of_text s with
      | Some z => IntOk z
      | None => IntValueError
      end
  | PyNone | PyList _ | PyDict _ | PyOther => IntTypeError
  end.

(** [config.get(key)] for a string key: only a string key can equal it. *)
Fixpoint dict_get (entries : list (PyValue * PyValue)) (key : string) : PyValue :=
  match entries with
  | [] => PyNone
  | (PyStr k, v) :: rest => if String.eqb k key then v else dict_get rest key
  | _ :: rest => dict_get rest key
  end.

Definition is_none (v : PyValue) : bool :=
  match v with PyNone => true | _ => false end.

(** [v == ""] *)
Definition is_empty_str (v : PyValue) : bool :=
  match v with PyStr s => String.eqb s ""%string | _ => false end.

Definition get_board_size_from_config
    (int_of_text : string -> option Z) (text_ok : PyValue -> bool)
    (loaded : LoadResult) : Z + Uncaught :=
  match loaded with
  | LoadFileNotFoundError => inl DEFAULT_SIZE
  | LoadYAMLError message_ok =>
      if message_ok then inl DEFAULT_SIZE else inr UncaughtMessageError
  | LoadOtherError => inr UncaughtLoadError
  | Loaded config =>
      match config with
      | PyDict entries =>
          let board_size_value := dict_get entries "board_size" in
          if is_none board_size_value || is_empty_str board_size_value
          then inl DEFAULT_SIZE
          else
            (* [except (ValueError, TypeError)]: its message shows
               [board_size_value] *)
            let handler :=
              if text_ok board_size_value then inl DEFAULT_SIZE
              else inr UncaughtMessageError in
            match py_int int_of_text board_size_value with
            | IntOk size_input =>
                (* both branches print [size_input] first, inside the [try] *)
                if (3 <=? size_input) && (size_input <=? 8)
                then if text_ok (PyInt size_input) then inl size_input
                     else handler
                else if text_ok (PyInt size_input) then inl DEFAULT_SIZE
                     else handler
            | IntValueError | IntTypeError => handler
            | IntOverflowError => inr UncaughtOverflowError
            end
      | _ => inl DEFAULT_SIZE
      end
  end.

(** ** [main]

    The lines [input()] reads are the list [inputs]; reading past its end
    raises [EOFError].  [normalize] stands for [.lower().strip()], and
    [draws t] is what the [t]-th call of [move] draws.  Printing and the
    pause before the game are left out. *)

Inductive LoopEnd : Type :=
| EndGameOver
| EndQuit
| EndEOFError
| EndEngineError.

Fixpoint main_loop (normalize : string -> string) (draws : nat -> Draw)
    (t : nat) (inputs : list string) (game : Game2048)
  : LoopEnd * Game2048 :=
  match is_game_over game with
  | Ok true => (EndGameOver, game)
  | Ok false =>
      match inputs with
      | [] => (EndEOFError, game)
      | line :: rest =>
          let move_ := normalize line in
          if String.eqb move_ "q" then (EndQuit, game)
          else if negb (valid_direction move_) then
            match rest with
            | [] => (EndEOFError, game)
            | _ :: rest' => main_loop normalize draws t rest' game
            end
          else
            match move move_ (draws t) game with
            | Ok (true, game') => main_loop normalize draws (S t) rest game'
            | Ok (false, game') =>
                match rest with
                | [] => (EndEOFError, game')
                | _ :: rest' => main_loop normalize draws (S t) rest' game'
                end
            | _ => (EndEngineError, game)
            end
      end
  | _ => (EndEngineError, game)
  end.

Definition main (int_of_text : string -> option Z)
    (text_ok : PyValue -> bool) (loaded : LoadResult)
    (normalize : string -> string) (rnd1 rnd2 : Draw) (draws : nat -> Draw)
    (inputs : list string)
  : (LoopEnd * Game2048) + Uncaught :=
  match get_board_size_from_config int_of_text text_ok loaded with
  | inr e => inr e
  | inl size =>
      match __init__ size rnd1 rnd2 with
      | Ok game => inl (main_loop normalize draws 0 inputs game)
      | _ => inr UncaughtEngineError
      end
  end.

(** * Definitions used to state the properties *)

(** ** The row primitive in the words of the specification

    Compress, merge each pair of equal neighbours once from the left, pad
    with zeros.  These definitions follow the specification; the theorems
    below compare them with [merge_loop] and [move_left_row]. *)

Definition nonzero (x : Z) : bool := negb (x =? 0).

Definition compress (row : list Z) : list Z := filter nonzero row.

Fixpoint merge_pairs (l : list Z) : list Z :=
  match l with
  | [] => []
  | a :: tl =>
      match tl with
      | [] => [a]
      | b :: rest =>
          if a =? b then a * 2 :: merge_pairs rest else a :: merge_pairs tl
      end
  end.

(** The values of the merged cells, in the order the merges happen. *)
Fixpoint merge_gains (l : list Z) : list Z :=
  match l with
  | [] => []
  | a :: tl =>
      match tl with
      | [] => []
      | b :: rest =>
          if a =? b then a * 2 :: merge_gains rest else merge_gains tl
      end
  end.

Definition pad (n : Z) (l : list Z) : list Z :=
  l ++ repeat 0 (Z.to_nat (n - Z.of_nat (length l))).

Definition reduce_row (n : Z) (row : list Z) : list Z :=
  pad n (merge_pairs (compress row)).

Definition sumZ (l : list Z) : Z := fold_right Z.add 0 l.

Definition count_nonzero (row : list Z) : nat := length (compress row).

(** What a row adds to the score, and whether one of its merges reaches
    [win]. *)
Definition row_gain (row : list Z) : Z := sumZ (merge_gains (compress row)).

Definition row_hit (win : Z) (row : list Z) : bool :=
  existsb (fun v => v =? win) (merge_gains (compress row)).

Definition board_gain (b : Board) : Z := sumZ (map row_gain b).

Definition board_hit (win : Z) (b : Board) : bool := existsb (row_hit win) b.

(** The state [_move_left] leaves behind, given what the rows gained. *)
Definition scored (self : Game2048) (gain : Z) (hit : bool) : Game2048 :=
  set_game_won (set_score self (score self + gain)) (game_won self || hit).

(** ** The four directions as one primitive *)

(** The board [_move_left] is run on, and the way back. *)
Definition orient (direction : string) (b : Board) : Board :=
  if String.eqb direction "w"%string then _transpose b
  else if String.eqb direction "s"%string then _reverse (_transpose b)
  else if String.eqb direction "a"%string then b
  else _reverse b.

Definition unorient (direction : string) (b : Board) : Board :=
  if String.eqb direction "w"%string then _transpose b
  else if String.eqb direction "s"%string then _transpose (_reverse b)
  else if String.eqb direction "a"%string then b
  else _reverse b.

(** The board a valid direction produces, before any tile is spawned. *)
Definition shifted (direction : string) (n : Z) (b : Board) : Board :=
  unorient direction (map (reduce_row n) (orient direction b)).

(** ** Shape and contents of a board *)

Definition square (n : nat) (b : Board) : Prop :=
  length b = n /\ forall row, In row b -> length row = n.

Definition squareb (n : nat) (b : Board) : bool :=
  (length b =? n)%nat && forallb (fun row => (length row =? n)%nat) b.

(** The board of [self] has [size] rows of [size] cells. *)
Definition well_formed (self : Game2048) : bool :=
  squareb (Z.to_nat (size self)) (board self).

Definition all_cells (P : Z -> bool) (b : Board) : bool :=
  forallb (forallb P) b.

Definition nonneg (x : Z) : bool := 0 <=? x.

(** Zero, or a power of two that is at least 2. *)
Definition is_tile (x : Z) : bool :=
  (x =? 0) || ((2 <=? x) && (x =? 2 ^ Z.log2 x)).

(** The cell at row [r], column [c], read as [0] outside the board. *)
Definition at_ (b : Board) (r c : nat) : Z := nth c (nth r b []) 0.

Definition count_empty (b : Board) : nat :=
  length (filter (fun x => x =? 0) (concat b)).

(** ** The two scans of [is_game_over] *)

Definition has_empty (n : nat) (b : Board) : bool :=
  existsb (fun r => existsb (fun c => at_ b r c =? 0) (seq 0 n)) (seq 0 n).

Definition pair_at (n : nat) (b : Board) (r c : nat) : bool :=
  ((c + 1 <? n)%nat && (at_ b r c =? at_ b r (c + 1)))
  || ((r + 1 <? n)%nat && (at_ b r c =? at_ b (r + 1) c)).

Definition has_equal_pair (n : nat) (b : Board) : bool :=
  existsb (fun r => existsb (pair_at n b r) (seq 0 n)) (seq 0 n).

(** The two conditions of the specification, cell by cell. *)
Definition full (n : nat) (b : Board) : Prop :=
  forall r c, (r < n)%nat -> (c < n)%nat -> at_ b r c <> 0.

Definition no_equal_neighbours (n : nat) (b : Board) : Prop :=
  forall r c, (r < n)%nat -> (c < n)%nat ->
    ((c + 1 < n)%nat -> at_ b r c <> at_ b r (c + 1))
    /\ ((r + 1 < n)%nat -> at_ b r c <> at_ b (r + 1) c).

(** ** What [add_new_tile] computes *)

Fixpoint replace_nth {A : Type} (l : list A) (i : nat) (x : A) : list A :=
  match l, i with
  | [], _ => []
  | _ :: t, O => x :: t
  | h :: t, S j => h :: replace_nth t j x
  end.

(** The board with the cell at row [r], column [c] set to [v]. *)
Definition place (b : Board) (r c : nat) (v : Z) : Board :=
  replace_nth b r (replace_nth (nth r b []) c v).

(** The coordinates of the empty cells, row by row. *)
Definition empty_cells (n : nat) (b : Board) : list (nat * nat) :=
  flat_map
    (fun r => filter (fun p => at_ b (fst p) (snd p) =? 0)
                (map (pair r) (seq 0 n)))
    (seq 0 n).

Definition drawn_value (rnd : Draw) : Z := if below_tenth rnd then 4 else 2.

(** ** Boards that need not be square *)

(** [k] rows of [m] cells each. *)
Definition rectangular (k m : nat) (b : Board) : Prop :=
  length b = k /\ forall row, In row b -> length row = m.

Definition board_sum (b : Board) : Z := sumZ (map sumZ b).

(** Some cell of the board holds a tile. *)
Definition has_tile (b : Board) : bool := existsb (existsb nonzero) b.

(** ** The states a game of size [n] can be in *)

(** A new game, and whatever [move] and [add_new_tile] make of it. *)
Inductive reachable (n : Z) : Game2048 -> Prop :=
| reach_new (rnd1 rnd2 : Draw) (g : Game2048) :
    __init__ n rnd1 rnd2 = Ok g -> reachable n g
| reach_move (direction : string) (rnd : Draw) (g g' : Game2048) (r : bool) :
    reachable n g -> move direction rnd g = Ok (r, g') -> reachable n g'
| reach_add (rnd : Draw) (g g' : Game2048) :
    reachable n g -> add_new_tile rnd g = Ok g' -> reachable n g'.

(** What every state of a game of size [n] satisfies. *)
Definition game_invariant (n : Z) (g : Game2048) : Prop :=
  size g = n
  /\ well_formed g = true
  /\ all_cells is_tile (board g) = true
  /\ win_value g = 2048
  /\ 0 <= score g
  /\ (4 | score g)
  /\ (game_won g = true -> 2048 <= score g)
  /\ (2 <= n -> 4 <= board_sum (board g)).

(** Some cell of the board is at least [win]. *)
Definition shows (win : Z) (b : Board) : Prop :=
  exists row x, In row b /\ In x row /\ win <= x.

(** ** Sample games *)

Definition g4 (b : Board) : Game2048 := mkGame 4 b 0 2048 false.

Definition sample_settled : Game2048 :=
  mkGame 4 [[2; 0; 0; 0]; [4; 2; 0; 0]; [0; 0; 0; 0]; [8; 4; 2; 0]] 12 2048 false.








Definition sample_stuck : Game2048 :=
  mkGame 4 [[2; 4; 2; 4]; [4; 2; 4; 2]; [2; 4; 2; 4]; [4; 2; 4; 2]] 0 2048 false.

Definition sample_one_gap : Game2048 :=
  mkGame 4 [[0; 2; 4; 8]; [2; 4; 8; 16]; [4; 8; 16; 32]; [8; 16; 32; 64]]
    0 2048 false.

Definition sample_midgame : Game2048 :=
  mkGame 4 [[2; 2; 4; 8]; [0; 4; 4; 0]; [1024; 1024; 0; 2]; [16; 0; 16; 2]]
    100 2048 false.

(** [sample_midgame] after the transform for [a], and after the tile that
    the draw [mkDraw 0 false] adds. *)
Definition sample_midgame_left : Game2048 :=
  mkGame 4 [[4; 4; 8; 0]; [8; 0; 0; 0]; [2048; 2; 0; 0]; [32; 2; 0; 0]]
    2192 2048 true.

Definition sample_midgame_moved : Game2048 :=
  mkGame 4 [[4; 4; 8; 2]; [8; 0; 0; 0]; [2048; 2; 0; 0]; [32; 2; 0; 0]]
    2192 2048 true.

(** [__init__ 4 (mkDraw 5 false) (mkDraw 9 true)]. *)
Definition sample_new : Game2048 :=
  mkGame 4 [[0; 0; 0; 0]; [0; 2; 0; 0]; [0; 0; 4; 0]; [0; 0; 0; 0]]
    0 2048 false.

(** A printer with the smallest limit Python accepts on the digits of an
    integer it turns into text (640; the default is 4300). *)
Definition sample_text_ok (v : PyValue) : bool :=
  match v with
  | PyInt z => Z.abs z <? 10 ^ 640
  | _ => true
  end.

(** * Lemmas and theorems *)

(** ** First checks against the scenarios of the specification *)

Example row_2222 :
  move_left_row (g4 []) [2; 2; 2; 2]
  = Ok ([4; 4; 0; 0], mkGame 4 [] 8 2048 false).
Proof. reflexivity. Qed.

Example row_0022 :
  move_left_row (g4 []) [0; 0; 2; 2]
  = Ok ([4; 0; 0; 0], mkGame 4 [] 4 2048 false).
Proof. reflexivity. Qed.

Example row_2002 :
  move_left_row (g4 []) [2; 0; 0; 2]
  = Ok ([4; 0; 0; 0], mkGame 4 [] 4 2048 false).
Proof. reflexivity. Qed.

(** ** Induction along the merge scan *)

Lemma merge_scan_ind (P : list Z -> Prop) :
  P [] ->
  (forall a, P [a]) ->
  (forall a rest, P rest -> P (a :: a :: rest)) ->
  (forall a b rest, a <> b -> P (b :: rest) -> P (a :: b :: rest)) ->
  forall l, P l.
Proof.
  intros Hnil Hone Heq Hne l.
  assert (H : forall n l, (length l <= n)%nat -> P l).
  { induction n as [|n IH]; intros [|a [|b rest]] Hlen; simpl in Hlen;
      try apply Hnil; try apply Hone; try lia.
    destruct (Z.eq_dec a b) as [->|Hab].
    - apply Heq. apply IH. lia.
    - apply Hne; [exact Hab|]. apply IH. simpl. lia. }
  apply (H (length l)). lia.
Qed.

Lemma merge_pairs_eq a rest :
  merge_pairs (a :: a :: rest) = a * 2 :: merge_pairs rest.
Proof. simpl. now rewrite Z.eqb_refl. Qed.

Lemma merge_pairs_neq a b rest :
  a <> b -> merge_pairs (a :: b :: rest) = a :: merge_pairs (b :: rest).
Proof. intros H. apply Z.eqb_neq in H. cbn [merge_pairs]. now rewrite H. Qed.

Lemma merge_gains_eq a rest :
  merge_gains (a :: a :: rest) = a * 2 :: merge_gains rest.
Proof. simpl. now rewrite Z.eqb_refl. Qed.

Lemma merge_gains_neq a b rest :
  a <> b -> merge_gains (a :: b :: rest) = merge_gains (b :: rest).
Proof. intros H. apply Z.eqb_neq in H. cbn [merge_gains]. now rewrite H. Qed.

(** ** The loop of [_move_left] computes the merge scan *)

Lemma skipn_nth_error {A : Type} (l : list A) (i : nat) (x : A) :
  nth_error l i = Some x -> skipn i l = x :: skipn (S i) l.
Proof.
  revert i; induction l as [|h t IH]; intros [|i] H; simpl in *; try discriminate.
  - now inversion H.
  - now apply IH.
Qed.

Lemma flag_update (won : bool) (v win : Z) :
  (if negb won && (v =? win) then true else won) = won || (v =? win).
Proof. now destruct won, (v =? win). Qed.

Lemma merge_loop_spec (fuel : nat) (win : Z) (c : list Z) :
  forall (i : nat) (merged : list Z) (sc : Z) (won : bool),
    (length c - i <= fuel)%nat ->
    merge_loop fuel win c i merged sc won
    = Ok (merged ++ merge_pairs (skipn i c),
          sc + sumZ (merge_gains (skipn i c)),
          won || existsb (fun v => v =? win) (merge_gains (skipn i c))).
Proof.
  induction fuel as [|fuel IH]; intros i merged sc won Hfuel.
  - simpl. destruct (Nat.ltb_spec i (length c)) as [Hlt|Hge]; [lia|].
    rewrite skipn_all2 by lia. simpl.
    now rewrite app_nil_r, Z.add_0_r, orb_false_r.
  - cbn [merge_loop].
    destruct (Nat.ltb_spec i (length c)) as [Hlt|Hge].
    2:{ rewrite skipn_all2 by lia. simpl.
        now rewrite app_nil_r, Z.add_0_r, orb_false_r. }
    destruct (nth_error c i) as [x|] eqn:Hx.
    2:{ apply nth_error_None in Hx. lia. }
    rewrite (skipn_nth_error _ _ _ Hx).
    unfold getitem at 1 3 4. rewrite Hx.
    destruct (Nat.ltb_spec (i + 1) (length c)) as [Hlt1|Hge1].
    + replace (i + 1)%nat with (S i) in * by lia.
      destruct (nth_error c (S i)) as [y|] eqn:Hy.
      2:{ apply nth_error_None in Hy. lia. }
      rewrite (skipn_nth_error _ _ _ Hy).
      unfold getitem. rewrite Hy. cbn [bind].
      destruct (Z.eqb_spec x y) as [->|Hxy].
      * cbn [bind]. rewrite IH by lia.
        replace (i + 2)%nat with (S (S i)) by lia.
        rewrite merge_pairs_eq, merge_gains_eq, flag_update.
        unfold sumZ. cbn [fold_right existsb app].
        now rewrite <- app_assoc, orb_assoc, Z.add_assoc.
      * cbn [bind]. rewrite IH by lia.
        replace (i + 1)%nat with (S i) by lia.
        rewrite (skipn_nth_error _ _ _ Hy).
        rewrite merge_pairs_neq, merge_gains_neq by assumption.
        now rewrite <- app_assoc.
    + cbn [bind]. rewrite IH by lia.
      replace (i + 1)%nat with (S i) by lia.
      rewrite skipn_all2 by lia. simpl.
      now rewrite <- app_assoc.
Qed.

Lemma move_left_row_spec (self : Game2048) (row : list Z) :
  move_left_row self row
  = Ok (reduce_row (size self) row,
        scored self (row_gain row) (row_hit (win_value self) row)).
Proof.
  unfold move_left_row. fold nonzero. fold (compress row).
  rewrite merge_loop_spec by lia. reflexivity.
Qed.

(** ** [_move_left] on a whole board *)

Lemma scored_scored (self : Game2048) (g1 g2 : Z) (h1 h2 : bool) :
  scored (scored self g1 h1) g2 h2 = scored self (g1 + g2) (h1 || h2).
Proof.
  unfold scored, set_game_won, set_score; simpl.
  f_equal; [lia | now rewrite orb_assoc].
Qed.

Lemma scored_zero (self : Game2048) : scored self 0 false = self.
Proof.
  destruct self; unfold scored, set_game_won, set_score; simpl.
  f_equal; [lia | apply orb_false_r].
Qed.

Lemma for_acc_rows (b : Board) :
  forall (acc : Board) (self : Game2048),
    for_acc b
      (fun row '(new_board, self) =>
         ' (merged_row, self) <- move_left_row self row ;;
         Ok (new_board ++ [merged_row], self))
      (acc, self)
    = Ok (acc ++ map (reduce_row (size self)) b,
          scored self (board_gain b) (board_hit (win_value self) b)).
Proof.
  induction b as [|row b IH]; intros acc self; cbn [for_acc].
  - simpl. now rewrite app_nil_r, scored_zero.
  - rewrite move_left_row_spec. cbn [bind]. rewrite IH.
    rewrite scored_scored. cbn [map]. rewrite <- app_assoc. reflexivity.
Qed.

Lemma _move_left_spec (self : Game2048) (b : Board) :
  _move_left self b
  = Ok (map (reduce_row (size self)) b,
        scored self (board_gain b) (board_hit (win_value self) b)).
Proof. unfold _move_left. now rewrite for_acc_rows. Qed.

(** ** Counting and summing along a row *)

Lemma compress_app (l1 l2 : list Z) :
  compress (l1 ++ l2) = compress l1 ++ compress l2.
Proof. apply filter_app. Qed.

Lemma compress_zeros (k : nat) : compress (repeat 0 k) = [].
Proof. induction k; simpl; auto. Qed.

Lemma compress_nonzero (l : list Z) :
  forallb nonzero l = true -> compress l = l.
Proof.
  induction l as [|a l IH]; simpl; intros H; [reflexivity|].
  apply andb_prop in H as [Ha Hl]. rewrite Ha. now rewrite IH.
Qed.

Lemma nonzero_compress (l : list Z) : forallb nonzero (compress l) = true.
Proof.
  induction l as [|a l IH]; simpl; [reflexivity|].
  destruct (nonzero a) eqn:Ha; simpl; [now rewrite Ha|assumption].
Qed.

Lemma nonzero_double (a : Z) : nonzero a = true -> nonzero (a * 2) = true.
Proof.
  unfold nonzero. rewrite !negb_true_iff, !Z.eqb_neq. lia.
Qed.

Lemma nonzero_merge_pairs (l : list Z) :
  forallb nonzero l = true -> forallb nonzero (merge_pairs l) = true.
Proof.
  induction l as [| a | a rest IH | a b rest Hab IH] using merge_scan_ind;
    try (intros H; exact H).
  - intros H. rewrite merge_pairs_eq. simpl in *.
    apply andb_prop in H as [Ha H]. apply andb_prop in H as [_ H].
    now rewrite nonzero_double, IH.
  - intros H. rewrite merge_pairs_neq by assumption.
    cbn [forallb] in *. apply andb_prop in H as [Ha H].
    now rewrite Ha, IH.
Qed.

Lemma length_merge_pairs (l : list Z) :
  (length (merge_pairs l) + length (merge_gains l) = length l)%nat.
Proof.
  induction l as [| a | a rest IH | a b rest Hab IH] using merge_scan_ind;
    try reflexivity.
  - rewrite merge_pairs_eq, merge_gains_eq. simpl. lia.
  - rewrite merge_pairs_neq, merge_gains_neq by assumption.
    simpl in *. lia.
Qed.

Lemma sumZ_app (l1 l2 : list Z) : sumZ (l1 ++ l2) = sumZ l1 + sumZ l2.
Proof. induction l1; simpl in *; lia. Qed.

Lemma sumZ_zeros (k : nat) : sumZ (repeat 0 k) = 0.
Proof. induction k; simpl in *; lia. Qed.

Lemma sumZ_compress (l : list Z) : sumZ (compress l) = sumZ l.
Proof.
  induction l as [|a l IH]; simpl; [reflexivity|].
  unfold nonzero at 1. destruct (Z.eqb_spec a 0); simpl in *; lia.
Qed.

Lemma sumZ_merge_pairs (l : list Z) : sumZ (merge_pairs l) = sumZ l.
Proof.
  induction l as [| a | a rest IH | a b rest Hab IH] using merge_scan_ind;
    try reflexivity.
  - rewrite merge_pairs_eq. simpl in *. lia.
  - rewrite merge_pairs_neq by assumption. simpl in *. lia.
Qed.

Lemma compress_reduce_row (n : Z) (row : list Z) :
  compress (reduce_row n row) = merge_pairs (compress row).
Proof.
  unfold reduce_row, pad. rewrite compress_app, compress_zeros, app_nil_r.
  apply compress_nonzero, nonzero_merge_pairs, nonzero_compress.
Qed.

Lemma count_reduce_row (n : Z) (row : list Z) :
  (count_nonzero (reduce_row n row) + length (merge_gains (compress row))
   = count_nonzero row)%nat.
Proof.
  unfold count_nonzero. rewrite compress_reduce_row. apply length_merge_pairs.
Qed.

Lemma sumZ_reduce_row (n : Z) (row : list Z) :
  sumZ (reduce_row n row) = sumZ row.
Proof.
  unfold reduce_row, pad.
  now rewrite sumZ_app, sumZ_zeros, sumZ_merge_pairs, sumZ_compress, Z.add_0_r.
Qed.

Lemma length_compress (l : list Z) : (length (compress l) <= length l)%nat.
Proof. apply filter_length_le. Qed.

Lemma length_reduce_row (n : Z) (row : list Z) :
  Z.of_nat (length row) <= n -> length (reduce_row n row) = Z.to_nat n.
Proof.
  intros H. unfold reduce_row, pad. rewrite length_app, repeat_length.
  pose proof (length_merge_pairs (compress row)).
  pose proof (length_compress row). lia.
Qed.

(** A row whose reduction keeps as many non-zero cells saw no merge. *)
Lemma no_merge_of_count (n : Z) (row : list Z) :
  (count_nonzero row <= count_nonzero (reduce_row n row))%nat ->
  merge_gains (compress row) = [].
Proof.
  intros H. pose proof (count_reduce_row n row).
  destruct (merge_gains (compress row)); [reflexivity|simpl in *; lia].
Qed.

Lemma no_gain_of_count (n win : Z) (b : Board) :
  (forall row, In row b ->
     (count_nonzero row <= count_nonzero (reduce_row n row))%nat) ->
  board_gain b = 0 /\ board_hit win b = false.
Proof.
  induction b as [|row b IH]; intros H; [now split|].
  destruct IH as [Hg Hh]; [intros r Hr; apply H; now right|].
  unfold board_gain, board_hit in *. cbn [map sumZ fold_right existsb].
  fold (sumZ (map row_gain b)). rewrite Hg, Hh.
  unfold row_gain, row_hit.
  rewrite (no_merge_of_count n row) by (apply H; now left).
  now split.
Qed.

(** ** Transposition and reversal *)

Lemma fold_min_le_init (a : nat) (l : list nat) :
  (fold_right Nat.min a l <= a)%nat.
Proof. induction l; simpl; lia. Qed.

Lemma fold_min_le_in (a x : nat) (l : list nat) :
  In x l -> (fold_right Nat.min a l <= x)%nat.
Proof.
  induction l as [|y l IH]; simpl; [tauto|].
  intros [->|H]; [lia|]. specialize (IH H). lia.
Qed.

Lemma shortest_le (b : Board) (row : list Z) :
  In row b -> (shortest b <= length row)%nat.
Proof.
  destruct b as [|r0 rest]; [intros []|].
  intros [->|H]; simpl.
  - apply fold_min_le_init.
  - apply fold_min_le_in. now apply in_map.
Qed.

Lemma shortest_rect (b : Board) (m : nat) :
  b <> [] -> (forall row, In row b -> length row = m) -> shortest b = m.
Proof.
  destruct b as [|r0 rest]; [congruence|]. intros _ H. simpl.
  rewrite (H r0) by now left.
  assert (Hrest : forall row, In row rest -> length row = m)
    by (intros row Hr; apply H; now right).
  clear H. induction rest as [|r rest IH]; simpl; [reflexivity|].
  rewrite IH by (intros row Hr; apply Hrest; now right).
  rewrite (Hrest r) by now left. lia.
Qed.

Lemma map_nth_seq (l : list Z) :
  forall L : nat, (L <= length l)%nat ->
    map (fun j => nth j l 0) (seq 0 L) = firstn L l.
Proof.
  induction l as [|a l IH]; intros [|L] H; simpl in *; try reflexivity; try lia.
  f_equal. rewrite <- seq_shift, map_map. apply IH. lia.
Qed.

Lemma map_nth_rows {B : Type} (f : list Z -> B) (M : Board) :
  map (fun i => f (nth i M [])) (seq 0 (length M)) = map f M.
Proof.
  induction M as [|r M IH]; simpl; [reflexivity|].
  f_equal. rewrite <- seq_shift, map_map. exact IH.
Qed.

Lemma nth_map_column (M : Board) (i j : nat) :
  (i < length M)%nat ->
  nth i (map (fun row => nth j row 0) M) 0 = nth j (nth i M []) 0.
Proof.
  intros H.
  rewrite (nth_indep _ 0 ((fun row => nth j row 0) [])) by now rewrite length_map.
  apply (map_nth (fun row : list Z => nth j row 0)).
Qed.

(** Transposing twice keeps, of every row, the part [zip] did not drop. *)
Lemma transpose_transpose (M : Board) :
  _transpose (_transpose M)
  = if (shortest M =? 0)%nat then [] else map (firstn (shortest M)) M.
Proof.
  destruct (Nat.eqb_spec (shortest M) 0) as [H0|H0].
  - unfold _transpose at 2. rewrite H0. reflexivity.
  - assert (Hs : shortest (_transpose M) = length M).
    { apply shortest_rect.
      - unfold _transpose. destruct (shortest M); [congruence|discriminate].
      - intros row Hrow. unfold _transpose in Hrow.
        apply in_map_iff in Hrow as (j & <- & _). apply length_map. }
    unfold _transpose at 1. rewrite Hs.
    rewrite <- (map_nth_rows (firstn (shortest M)) M).
    apply map_ext_in. intros i Hi. apply in_seq in Hi.
    unfold _transpose. rewrite map_map.
    rewrite <- map_nth_seq.
    2:{ apply shortest_le, nth_In. lia. }
    apply map_ext. intros j. apply nth_map_column. lia.
Qed.

Lemma reverse_reverse (b : Board) : _reverse (_reverse b) = b.
Proof.
  unfold _reverse. rewrite map_map. rewrite <- (map_id b) at 2.
  apply map_ext. apply rev_involutive.
Qed.

(** ** Boards of the right shape *)

Lemma squareb_spec (n : nat) (b : Board) : squareb n b = true <-> square n b.
Proof.
  unfold squareb, square. rewrite andb_true_iff, Nat.eqb_eq, forallb_forall.
  split; intros [H1 H2]; split; auto; intros row Hr;
    specialize (H2 row Hr); now apply Nat.eqb_eq.
Qed.

Lemma square_shortest (n : nat) (b : Board) : square n b -> shortest b = n.
Proof.
  intros [Hl Hr]. destruct b as [|r0 rest] eqn:Hb; [exact Hl|].
  apply shortest_rect; [discriminate|exact Hr].
Qed.

Lemma square_transpose (n : nat) (b : Board) :
  square n b -> square n (_transpose b).
Proof.
  intros H. pose proof (square_shortest _ _ H) as Hs. destruct H as [Hl Hr].
  unfold _transpose. split.
  - now rewrite length_map, length_seq.
  - intros row Hrow. apply in_map_iff in Hrow as (j & <- & _).
    now rewrite length_map.
Qed.

Lemma square_reverse (n : nat) (b : Board) :
  square n b -> square n (_reverse b).
Proof.
  intros [Hl Hr]. unfold _reverse. split.
  - now rewrite length_map.
  - intros row Hrow. apply in_map_iff in Hrow as (r & <- & Hin).
    rewrite length_rev. now apply Hr.
Qed.

Lemma square_reduce (s : Z) (b : Board) :
  square (Z.to_nat s) b -> square (Z.to_nat s) (map (reduce_row s) b).
Proof.
  intros [Hl Hr]. split.
  - now rewrite length_map.
  - intros row Hrow. apply in_map_iff in Hrow as (r & <- & Hin).
    apply length_reduce_row. rewrite (Hr r Hin).
    destruct b; [destruct Hin|]. simpl in Hl. lia.
Qed.

Lemma transpose_involutive (n : nat) (b : Board) :
  square n b -> _transpose (_transpose b) = b.
Proof.
  intros H. rewrite transpose_transpose, (square_shortest _ _ H).
  destruct H as [Hl Hr]. destruct (Nat.eqb_spec n 0) as [->|Hn].
  - destruct b; [reflexivity|discriminate].
  - rewrite <- (map_id b) at 2. apply map_ext_in. intros row Hrow.
    rewrite <- (Hr row Hrow). apply firstn_all.
Qed.

(** ** The four directions as one primitive *)

Lemma move_dispatch_spec (direction : string) (self : Game2048) :
  valid_direction direction = true ->
  move_dispatch direction self
  = Ok (Some (set_board
                (scored self (board_gain (orient direction (board self)))
                   (board_hit (win_value self) (orient direction (board self))))
                (shifted direction (size self) (board self)))).
Proof.
  unfold valid_direction, move_dispatch, shifted, orient, unorient.
  intros H.
  destruct (String.eqb direction "w") eqn:Hw;
    [now rewrite _move_left_spec|].
  destruct (String.eqb direction "s") eqn:Hs;
    [now rewrite _move_left_spec|].
  destruct (String.eqb direction "a") eqn:Ha;
    [now rewrite _move_left_spec|].
  destruct (String.eqb direction "d") eqn:Hd;
    [now rewrite _move_left_spec|discriminate].
Qed.

Lemma move_dispatch_invalid (direction : string) (self : Game2048) :
  valid_direction direction = false ->
  move_dispatch direction self = Ok None.
Proof.
  unfold valid_direction, move_dispatch. intros H.
  apply orb_false_elim in H as [H Hd].
  apply orb_false_elim in H as [H Ha].
  apply orb_false_elim in H as [Hw Hs].
  now rewrite Hw, Hs, Ha, Hd.
Qed.

(** ** A board that a move leaves in place saw no merge *)

Lemma map_fixed {A : Type} (f : A -> A) (l : list A) :
  map f l = l -> forall x, In x l -> f x = x.
Proof.
  induction l as [|a l IH]; simpl; intros H x Hx; [destruct Hx|].
  injection H as Ha Hl. destruct Hx as [<-|Hx]; auto.
Qed.

Lemma count_firstn (L : nat) (l : list Z) :
  (count_nonzero (firstn L l) <= count_nonzero l)%nat.
Proof.
  unfold count_nonzero. rewrite <- (firstn_skipn L l) at 2.
  rewrite compress_app, length_app. lia.
Qed.

Lemma count_rev (l : list Z) : count_nonzero (rev l) = count_nonzero l.
Proof.
  unfold count_nonzero, compress. now rewrite filter_rev, length_rev.
Qed.

Lemma shifted_fixed_rows (direction : string) (n : Z) (b : Board) :
  shifted direction n b = b ->
  forall row, In row (orient direction b) ->
    (count_nonzero row <= count_nonzero (reduce_row n row))%nat.
Proof.
  unfold shifted, orient, unorient.
  destruct (String.eqb direction "w").
  { (* up: the rows are the columns of [b] *)
    intros H row Hrow.
    assert (HT : _transpose b
                 = _transpose (_transpose (map (reduce_row n) (_transpose b))))
      by now rewrite H.
    rewrite transpose_transpose in HT.
    set (L := shortest (map (reduce_row n) (_transpose b))) in HT.
    destruct (L =? 0)%nat.
    - rewrite HT in Hrow. destruct Hrow.
    - rewrite map_map in HT. symmetry in HT.
      rewrite <- (map_fixed _ _ HT row Hrow) at 1. apply count_firstn. }
  destruct (String.eqb direction "s").
  { (* down: the rows are the reversed columns of [b] *)
    intros H row Hrow.
    assert (HT : _transpose b
                 = _transpose (_transpose
                     (_reverse (map (reduce_row n) (_reverse (_transpose b))))))
      by now rewrite H.
    rewrite transpose_transpose in HT.
    set (L := shortest _) in HT.
    destruct (L =? 0)%nat.
    - rewrite HT in Hrow. destruct Hrow.
    - apply (f_equal _reverse) in HT.
      unfold _reverse at 2 3 in HT. rewrite !map_map in HT. symmetry in HT.
      pose proof (map_fixed _ _ HT row Hrow) as Hfix. cbv beta in Hfix.
      rewrite <- Hfix at 1.
      rewrite count_rev. etransitivity; [apply count_firstn|].
      now rewrite count_rev. }
  destruct (String.eqb direction "a").
  { intros H row Hrow. now rewrite (map_fixed _ _ H row Hrow). }
  { intros H row Hrow. apply (f_equal _reverse) in H.
    rewrite reverse_reverse in H.
    now rewrite (map_fixed _ _ H row Hrow). }
Qed.

Lemma shifted_fixed_no_gain (direction : string) (n win : Z) (b : Board) :
  shifted direction n b = b ->
  board_gain (orient direction b) = 0
  /\ board_hit win (orient direction b) = false.
Proof.
  intros H. apply (no_gain_of_count n). now apply shifted_fixed_rows.
Qed.

(** ** A single call of [move] *)

(** C1.  When the transform of a valid direction gives back a board equal to
    the snapshot taken on entry, [move] returns [False], and the instance it
    leaves is the one it was given: board, score and win flag are the same,
    and no tile was added. *)
Theorem noop_move_leaves_state
    (direction : string) (rnd : Draw) (self self1 : Game2048) :
  valid_direction direction = true ->
  move_dispatch direction self = Ok (Some self1) ->
  board self1 = board self ->
  move direction rnd self = Ok (false, self)
  /\ score self1 = score self
  /\ game_won self1 = game_won self.
Proof.
  intros Hd Hm Hb.
  rewrite (move_dispatch_spec _ _ Hd) in Hm. injection Hm as <-.
  cbn [board set_board] in Hb.
  destruct (shifted_fixed_no_gain direction (size self) (win_value self)
              (board self) Hb) as [Hg Hh].
  assert (Hself : set_board
            (scored self (board_gain (orient direction (board self)))
               (board_hit (win_value self) (orient direction (board self))))
            (shifted direction (size self) (board self)) = self).
  { rewrite Hg, Hh, scored_zero, Hb. now destruct self. }
  rewrite Hself. repeat split.
  unfold move. rewrite (move_dispatch_spec _ _ Hd). cbn [bind].
  rewrite Hself. destruct (Board_eq_dec (board self) (board self)); congruence.
Qed.

Lemma noop_move_leaves_state_witness :
  move "a" (mkDraw 0 false) sample_settled = Ok (false, sample_settled)
  /\ score sample_settled = score sample_settled
  /\ game_won sample_settled = game_won sample_settled.
Proof.
  apply (noop_move_leaves_state "a" (mkDraw 0 false) sample_settled sample_settled);
    reflexivity.
Defined.

(** C9.  For an input that is none of the four direction keys, [move]
    returns [False] and hands back the instance unchanged: board, score and
    win flag untouched, no tile added, no exception. *)
Theorem invalid_direction_rejected
    (direction : string) (rnd : Draw) (self : Game2048) :
  valid_direction direction = false ->
  move direction rnd self = Ok (false, self).
Proof.
  intros H. unfold move. now rewrite (move_dispatch_invalid _ _ H).
Qed.

Lemma invalid_direction_rejected_witness :
  move "x" (mkDraw 3 true) sample_settled = Ok (false, sample_settled).
Proof.
  apply (invalid_direction_rejected "x" (mkDraw 3 true) sample_settled).
  reflexivity.
Defined.

(** ** The row primitive *)

(** C6.  The body of [_move_left] for one row removes the zeros in order,
    merges equal neighbours pairwise from the left, each cell taking part in
    at most one merge and the scan resuming after the consumed pair
    ([merge_pairs]), and pads with zeros up to [size]; every merged value is
    added to the score.  The row [2,2,2,2] becomes [4,4,0,0] and adds 8. *)
Theorem move_left_row_is_compress_merge_pad (self : Game2048) (row : list Z) :
  (exists out self',
      move_left_row self row = Ok (out, self')
      /\ out = merge_pairs (compress row)
               ++ repeat 0 (Z.to_nat (size self)
                            - length (merge_pairs (compress row)))%nat
      /\ score self' = score self + sumZ (merge_gains (compress row))
      /\ (Z.of_nat (length row) <= size self ->
          length out = Z.to_nat (size self)))
  /\ (forall (b : Board) (sc win : Z) (won : bool),
      exists self',
        move_left_row (mkGame 4 b sc win won) [2; 2; 2; 2]
        = Ok ([4; 4; 0; 0], self')
        /\ score self' = sc + 8).
Proof.
  split.
  - eexists _, _. split; [apply move_left_row_spec|]. split; [|split].
    + unfold reduce_row, pad. f_equal. f_equal. lia.
    + reflexivity.
    + apply length_reduce_row.
  - intros b sc win won. eexists. split.
    + rewrite move_left_row_spec. reflexivity.
    + reflexivity.
Qed.

Lemma move_left_row_is_compress_merge_pad_witness :
  exists out self',
    move_left_row sample_settled [0; 4; 4; 4] = Ok (out, self')
    /\ out = [8; 4; 0; 0]
    /\ score self' = 20
    /\ length out = 4%nat.
Proof.
  destruct (proj1 (move_left_row_is_compress_merge_pad
                     sample_settled [0; 4; 4; 4]))
    as (out & self' & Hrun & Hout & Hscore & Hlen).
  exists out, self'. repeat split; try assumption.
  apply Hlen. simpl. lia.
Defined.

(** C4, as the code has it.  Reducing a row never adds a non-zero cell and
    keeps the sum of the row: a merge replaces two cells [a] by one cell
    [2a].  What the score gains is the sum of the merged cells, and the row
    loses one non-zero cell for each of them. *)
Theorem move_left_row_counts_and_sums (self : Game2048) (row : list Z) :
  exists out self',
    move_left_row self row = Ok (out, self')
    /\ (count_nonzero out <= count_nonzero row)%nat
    /\ sumZ out = sumZ row
    /\ score self' - score self = sumZ (merge_gains (compress row))
    /\ (count_nonzero out + length (merge_gains (compress row))
        = count_nonzero row)%nat.
Proof.
  eexists _, _. split; [apply move_left_row_spec|].
  pose proof (count_reduce_row (size self) row).
  repeat split; try assumption.
  - lia.
  - apply sumZ_reduce_row.
  - unfold scored, row_gain. simpl. lia.
Qed.

(** C4 as stated fails on the row [2,2,0,0]: the sum stays 4 while the score
    gains 4, so the difference of the sums is not the score gained. *)
Lemma row_sum_delta_counterexample :
  exists out self',
    move_left_row (g4 []) [2; 2; 0; 0] = Ok (out, self')
    /\ out = [4; 0; 0; 0]
    /\ sumZ out - sumZ [2; 2; 0; 0] <> score self' - score (g4 []).
Proof.
  eexists _, _. split; [reflexivity|]. split; [reflexivity|]. discriminate.
Qed.

(** ** Predicates on all cells of a board *)

Lemma all_cells_spec (P : Z -> bool) (b : Board) :
  all_cells P b = true
  <-> forall row, In row b -> forall x, In x row -> P x = true.
Proof.
  unfold all_cells. rewrite forallb_forall. split; intros H row Hrow.
  - apply forallb_forall. now apply H.
  - apply forallb_forall. now apply H.
Qed.

Section CellPredicate.

Variable P : Z -> bool.

Lemma all_cells_transpose (b : Board) :
  all_cells P b = true -> all_cells P (_transpose b) = true.
Proof.
  rewrite !all_cells_spec. intros H row Hrow x Hx.
  unfold _transpose in Hrow. apply in_map_iff in Hrow as (j & <- & Hj).
  apply in_map_iff in Hx as (r & <- & Hr). apply in_seq in Hj.
  apply (H r Hr). apply nth_In. pose proof (shortest_le b r Hr). lia.
Qed.

Lemma all_cells_reverse (b : Board) :
  all_cells P b = true -> all_cells P (_reverse b) = true.
Proof.
  rewrite !all_cells_spec. intros H row Hrow x Hx.
  unfold _reverse in Hrow. apply in_map_iff in Hrow as (r & <- & Hr).
  apply in_rev in Hx. exact (H r Hr _ Hx).
Qed.

Lemma all_cells_orient (direction : string) (b : Board) :
  all_cells P b = true -> all_cells P (orient direction b) = true.
Proof.
  intros H. unfold orient.
  repeat match goal with |- context [String.eqb ?a ?b] =>
                           destruct (String.eqb a b) end;
    auto using all_cells_transpose, all_cells_reverse.
Qed.

Lemma all_cells_unorient (direction : string) (b : Board) :
  all_cells P b = true -> all_cells P (unorient direction b) = true.
Proof.
  intros H. unfold unorient.
  repeat match goal with |- context [String.eqb ?a ?b] =>
                           destruct (String.eqb a b) end;
    auto using all_cells_transpose, all_cells_reverse.
Qed.

Hypothesis P_zero : P 0 = true.
Hypothesis P_double :
  forall a, P a = true -> nonzero a = true -> P (a * 2) = true.

Lemma merge_pairs_cells (c : list Z) :
  (forall x, In x c -> P x = true /\ nonzero x = true) ->
  forall x, In x (merge_pairs c) -> P x = true.
Proof.
  induction c as [| a | a rest IH | a b rest Hab IH] using merge_scan_ind;
    intros H x Hx.
  - destruct Hx.
  - apply H, Hx.
  - rewrite merge_pairs_eq in Hx. destruct Hx as [<-|Hx].
    + apply P_double; apply H; now left.
    + apply IH; [|exact Hx]. intros y Hy. apply H. now right; right.
  - rewrite merge_pairs_neq in Hx by assumption. destruct Hx as [<-|Hx].
    + apply H. now left.
    + apply IH; [|exact Hx]. intros y Hy. apply H. now right.
Qed.

Lemma reduce_row_cells (n : Z) (row : list Z) :
  forallb P row = true -> forallb P (reduce_row n row) = true.
Proof.
  rewrite !forallb_forall. intros H x Hx.
  unfold reduce_row, pad in Hx. apply in_app_or in Hx as [Hx|Hx].
  - revert x Hx. apply merge_pairs_cells. intros y Hy.
    apply filter_In in Hy as [Hy Hnz]. split; [now apply H|exact Hnz].
  - apply repeat_spec in Hx. now subst.
Qed.

Lemma all_cells_reduce (n : Z) (b : Board) :
  all_cells P b = true -> all_cells P (map (reduce_row n) b) = true.
Proof.
  unfold all_cells. rewrite !forallb_forall. intros H row Hrow.
  apply in_map_iff in Hrow as (r & <- & Hr).
  apply reduce_row_cells. now apply H.
Qed.

Lemma all_cells_shifted (direction : string) (n : Z) (b : Board) :
  all_cells P b = true -> all_cells P (shifted direction n b) = true.
Proof.
  intros H. unfold shifted.
  now apply all_cells_unorient, all_cells_reduce, all_cells_orient.
Qed.

End CellPredicate.

(** ** Orientation on square boards *)

Lemma square_orient (direction : string) (n : nat) (b : Board) :
  square n b -> square n (orient direction b).
Proof.
  intros H. unfold orient.
  repeat match goal with |- context [String.eqb ?a ?b] =>
                           destruct (String.eqb a b) end;
    auto using square_transpose, square_reverse.
Qed.

Lemma square_unorient (direction : string) (n : nat) (b : Board) :
  square n b -> square n (unorient direction b).
Proof.
  intros H. unfold unorient.
  repeat match goal with |- context [String.eqb ?a ?b] =>
                           destruct (String.eqb a b) end;
    auto using square_transpose, square_reverse.
Qed.

Lemma orient_unorient (direction : string) (n : nat) (b : Board) :
  square n b -> orient direction (unorient direction b) = b.
Proof.
  intros H. unfold orient, unorient.
  repeat match goal with |- context [String.eqb ?a ?b] =>
                           destruct (String.eqb a b) end.
  - now apply (transpose_involutive n).
  - rewrite (transpose_involutive n) by now apply square_reverse.
    apply reverse_reverse.
  - reflexivity.
  - apply reverse_reverse.
Qed.

Lemma unorient_orient (direction : string) (n : nat) (b : Board) :
  square n b -> unorient direction (orient direction b) = b.
Proof.
  intros H. unfold orient, unorient.
  repeat match goal with |- context [String.eqb ?a ?b] =>
                           destruct (String.eqb a b) end.
  - now apply (transpose_involutive n).
  - rewrite reverse_reverse. now apply (transpose_involutive n).
  - reflexivity.
  - apply reverse_reverse.
Qed.

Lemma square_shifted (direction : string) (s : Z) (b : Board) :
  square (Z.to_nat s) b -> square (Z.to_nat s) (shifted direction s b).
Proof.
  intros H. unfold shifted.
  now apply square_unorient, square_reduce, square_orient.
Qed.

(** ** Moving twice in the same direction *)

Lemma gains_positive (c : list Z) :
  (forall x, In x c -> 0 < x) ->
  0 <= sumZ (merge_gains c)
  /\ (sumZ (merge_gains c) = 0 -> merge_gains c = []).
Proof.
  induction c as [| a | a rest IH | a b rest Hab IH] using merge_scan_ind;
    intros H; try (split; [reflexivity|reflexivity]); try (now split).
  - rewrite merge_gains_eq.
    destruct IH as [IH _]; [intros x Hx; apply H; now right; right|].
    assert (0 < a) by (apply H; now left).
    simpl. split; intros; lia.
  - rewrite merge_gains_neq by assumption.
    apply IH. intros x Hx. apply H. now right.
Qed.

Lemma row_gain_zero (row : list Z) :
  forallb nonneg row = true ->
  0 <= row_gain row /\ (row_gain row = 0 -> merge_gains (compress row) = []).
Proof.
  intros H. apply gains_positive. intros x Hx.
  apply filter_In in Hx as [Hx Hnz].
  rewrite forallb_forall in H. specialize (H x Hx).
  unfold nonneg in H. apply Z.leb_le in H.
  unfold nonzero in Hnz. apply negb_true_iff, Z.eqb_neq in Hnz. lia.
Qed.

Lemma board_gain_zero (b : Board) :
  all_cells nonneg b = true ->
  0 <= board_gain b
  /\ (board_gain b = 0 ->
      forall row, In row b -> merge_gains (compress row) = []).
Proof.
  unfold all_cells, board_gain.
  induction b as [|r b IH]; cbn [forallb map sumZ fold_right]; intros H.
  - split; [lia|]. intros _ row [].
  - apply andb_prop in H as [Hr Hb].
    destruct (row_gain_zero r Hr) as [Hr0 Hr1].
    destruct (IH Hb) as [Hb0 Hb1]. fold (sumZ (map row_gain b)) in *.
    split; [lia|]. intros Hsum row [<-|Hrow].
    + apply Hr1. lia.
    + apply Hb1; [lia|exact Hrow].
Qed.

Lemma merge_pairs_no_gain (c : list Z) :
  merge_gains c = [] -> merge_pairs c = c.
Proof.
  induction c as [| a | a rest IH | a b rest Hab IH] using merge_scan_ind;
    try reflexivity.
  - rewrite merge_gains_eq. discriminate.
  - rewrite merge_gains_neq, merge_pairs_neq by assumption.
    intros H. now rewrite IH.
Qed.







(** ** [is_game_over] as two scans *)

Lemma cell_square (n : nat) (b : Board) (r c : nat) :
  square n b -> (r < n)%nat -> (c < n)%nat ->
  cell b r c = Ok (at_ b r c).
Proof.
  intros [Hl Hr] Hrn Hcn. unfold cell, getitem, at_.
  rewrite (nth_error_nth' b []) by lia. cbn [bind].
  rewrite (nth_error_nth' _ 0); [reflexivity|].
  rewrite (Hr (nth r b [])); [exact Hcn|]. apply nth_In. lia.
Qed.

Lemma for_in_ext {X A : Type} (xs : list X) (f g : X -> result (flow A)) :
  (forall x, In x xs -> f x = g x) -> for_in xs f = for_in xs g.
Proof.
  induction xs as [|x xs IH]; intros H; simpl; [reflexivity|].
  rewrite (H x) by now left.
  rewrite IH by (intros y Hy; apply H; now right). reflexivity.
Qed.

Lemma for_in_test {X A : Type} (xs : list X) (p : X -> bool) (v : A) :
  for_in xs (fun x => Ok (if p x then Return v else Next))
  = Ok (if existsb p xs then Return v else Next).
Proof.
  induction xs as [|x xs IH]; simpl; [reflexivity|].
  destruct (p x); [reflexivity|exact IH].
Qed.

Lemma for_in_grid {A : Type} (n : nat) (v : A)
    (body : nat -> nat -> result (flow A)) (p : nat -> nat -> bool) :
  (forall r c, (r < n)%nat -> (c < n)%nat ->
     body r c = Ok (if p r c then Return v else Next)) ->
  for_in (seq 0 n) (fun r => for_in (seq 0 n) (fun c => body r c))
  = Ok (if existsb (fun r => existsb (p r) (seq 0 n)) (seq 0 n)
        then Return v else Next).
Proof.
  intros H. rewrite <- for_in_test. apply for_in_ext. intros r Hr.
  apply in_seq in Hr. rewrite <- for_in_test. apply for_in_ext. intros c Hc.
  apply in_seq in Hc. apply H; lia.
Qed.

Lemma is_game_over_spec (self : Game2048) :
  well_formed self = true ->
  is_game_over self
  = Ok (negb (has_empty (Z.to_nat (size self)) (board self))
        && negb (has_equal_pair (Z.to_nat (size self)) (board self))).
Proof.
  intros Hwf. apply squareb_spec in Hwf. unfold is_game_over, range.
  set (n := Z.to_nat (size self)) in *.
  rewrite (for_in_grid n false _ (fun r c => at_ (board self) r c =? 0)).
  2:{ intros r c Hr Hc. rewrite (cell_square n) by assumption. cbn [bind].
      now destruct (_ =? 0). }
  cbn [bind]. fold (has_empty n (board self)).
  destruct (has_empty n (board self)); [reflexivity|].
  rewrite (for_in_grid n false _ (pair_at n (board self))).
  2:{ intros r c Hr Hc. unfold pair_at.
      assert (Hc1 : (Z.of_nat c + 1 <? size self) = (c + 1 <? n)%nat).
      { destruct (Z.ltb_spec (Z.of_nat c + 1) (size self)),
          (Nat.ltb_spec (c + 1) n); try reflexivity; lia. }
      assert (Hr1 : (Z.of_nat r + 1 <? size self) = (r + 1 <? n)%nat).
      { destruct (Z.ltb_spec (Z.of_nat r + 1) (size self)),
          (Nat.ltb_spec (r + 1) n); try reflexivity; lia. }
      rewrite Hc1, Hr1.
      destruct (Nat.ltb_spec (c + 1) n) as [Hlt|Hge];
        destruct (Nat.ltb_spec (r + 1) n) as [Hlt'|Hge'];
        repeat (rewrite (cell_square n) by (assumption || lia));
        cbn [bind andb orb];
        repeat match goal with |- context [?x =? ?y] =>
                                 destruct (x =? y) end;
        reflexivity. }
  cbn [bind]. fold (has_equal_pair n (board self)).
  now destruct (has_equal_pair n (board self)).
Qed.

Lemma has_empty_false (n : nat) (b : Board) :
  has_empty n b = false <-> full n b.
Proof.
  unfold has_empty, full. split.
  - intros H r c Hr Hc Hz.
    assert (E : existsb
                  (fun r => existsb (fun c => at_ b r c =? 0) (seq 0 n))
                  (seq 0 n) = true); [|congruence].
    apply existsb_exists. exists r. split; [apply in_seq; lia|].
    apply existsb_exists. exists c. split; [apply in_seq; lia|].
    now apply Z.eqb_eq.
  - intros H. apply not_true_is_false. intros E.
    apply existsb_exists in E as (r & Hr & E).
    apply existsb_exists in E as (c & Hc & E).
    apply in_seq in Hr, Hc. apply Z.eqb_eq in E. apply (H r c); lia || assumption.
Qed.

Lemma has_equal_pair_false (n : nat) (b : Board) :
  has_equal_pair n b = false <-> no_equal_neighbours n b.
Proof.
  unfold has_equal_pair, no_equal_neighbours. split.
  - intros H r c Hr Hc.
    assert (E : pair_at n b r c = false).
    { apply not_true_is_false. intros E.
      assert (E' : existsb (fun r => existsb (pair_at n b r) (seq 0 n))
                     (seq 0 n) = true); [|congruence].
      apply existsb_exists. exists r. split; [apply in_seq; lia|].
      apply existsb_exists. exists c. split; [apply in_seq; lia|exact E]. }
    unfold pair_at in E. apply orb_false_elim in E as [E1 E2].
    split; intros Hlt Heq.
    + apply Nat.ltb_lt in Hlt. apply Z.eqb_eq in Heq.
      now rewrite Hlt, Heq in E1.
    + apply Nat.ltb_lt in Hlt. apply Z.eqb_eq in Heq.
      now rewrite Hlt, Heq in E2.
  - intros H. apply not_true_is_false. intros E.
    apply existsb_exists in E as (r & Hr & E).
    apply existsb_exists in E as (c & Hc & E).
    apply in_seq in Hr, Hc. unfold pair_at in E.
    destruct (H r c) as [H1 H2]; [lia|lia|].
    apply orb_prop in E as [E|E]; apply andb_prop in E as [Hlt Heq];
      apply Nat.ltb_lt in Hlt; apply Z.eqb_eq in Heq;
      [exact (H1 Hlt Heq)|exact (H2 Hlt Heq)].
Qed.

(** C2.  On a size-by-size board [is_game_over] returns, and it returns
    [True] exactly when no cell is zero and no cell equals its right or
    lower neighbour, where that neighbour exists. *)
Theorem is_game_over_iff_full_and_stuck (self : Game2048) :
  well_formed self = true ->
  (exists v, is_game_over self = Ok v)
  /\ (is_game_over self = Ok true
      <-> full (Z.to_nat (size self)) (board self)
          /\ no_equal_neighbours (Z.to_nat (size self)) (board self)).
Proof.
  intros Hwf. rewrite (is_game_over_spec _ Hwf). split; [eauto|].
  rewrite <- has_empty_false, <- has_equal_pair_false.
  destruct (has_empty _ _), (has_equal_pair _ _); simpl;
    split; (intros [? ?] || intros ?); try discriminate; auto.
Qed.

Lemma is_game_over_iff_full_and_stuck_witness :
  is_game_over sample_stuck = Ok true
  /\ full 4 (board sample_stuck)
  /\ no_equal_neighbours 4 (board sample_stuck).
Proof.
  destruct (is_game_over_iff_full_and_stuck sample_stuck eq_refl) as [_ Hiff].
  split; [reflexivity|]. apply Hiff. reflexivity.
Defined.

(** ** A board with an empty cell *)

Lemma square_cell_of_In (n : nat) (b : Board) (x : Z) :
  square n b -> In x (concat b) ->
  exists r c, (r < n)%nat /\ (c < n)%nat /\ at_ b r c = x.
Proof.
  intros [Hl Hr] Hx. apply in_concat in Hx as (row & Hrow & Hx).
  destruct (In_nth _ _ [] Hrow) as (r & Hrlt & Hrnth).
  destruct (In_nth _ _ 0 Hx) as (c & Hclt & Hcnth).
  exists r, c. rewrite (Hr row Hrow) in Hclt. unfold at_.
  rewrite Hrnth. repeat split; (lia || assumption).
Qed.

Lemma has_empty_of_count (n : nat) (b : Board) :
  square n b -> (1 <= count_empty b)%nat -> has_empty n b = true.
Proof.
  intros Hsq Hcount. unfold count_empty in Hcount.
  destruct (filter (fun x => x =? 0) (concat b)) as [|x l] eqn:E;
    [simpl in Hcount; lia|].
  assert (Hx : In x (filter (fun x => x =? 0) (concat b)))
    by (rewrite E; now left).
  apply filter_In in Hx as [Hx Hz]. apply Z.eqb_eq in Hz. subst x.
  destruct (square_cell_of_In n b 0 Hsq Hx) as (r & c & Hr & Hc & Hat).
  apply existsb_exists. exists r. split; [apply in_seq; lia|].
  apply existsb_exists. exists c. split; [apply in_seq; lia|].
  now apply Z.eqb_eq.
Qed.

Lemma is_game_over_with_empty (self : Game2048) :
  well_formed self = true ->
  (1 <= count_empty (board self))%nat ->
  is_game_over self = Ok false.
Proof.
  intros Hwf Hcount. rewrite (is_game_over_spec _ Hwf).
  rewrite (has_empty_of_count _ _ (proj1 (squareb_spec _ _) Hwf) Hcount).
  reflexivity.
Qed.

(** C5, as the code has it.  A 4-by-4 board with exactly one empty cell and
    no two equal neighbours is not over: [is_game_over] returns [False] as
    soon as it meets the empty cell. *)
Theorem one_empty_cell_is_not_over (self : Game2048) :
  size self = 4 ->
  well_formed self = true ->
  count_empty (board self) = 1%nat ->
  no_equal_neighbours 4 (board self) ->
  is_game_over self = Ok false.
Proof.
  intros _ Hwf Hcount _. apply is_game_over_with_empty; [exact Hwf|lia].
Qed.

Lemma one_empty_cell_is_not_over_witness :
  is_game_over sample_one_gap = Ok false.
Proof.
  apply (one_empty_cell_is_not_over sample_one_gap); try reflexivity.
  apply has_equal_pair_false. reflexivity.
Defined.

(** C5 as stated fails on that board: one empty cell, no equal neighbours,
    and [is_game_over] answers [False]. *)
Lemma one_empty_cell_counterexample :
  well_formed sample_one_gap = true
  /\ count_empty (board sample_one_gap) = 1%nat
  /\ has_equal_pair 4 (board sample_one_gap) = false
  /\ is_game_over sample_one_gap = Ok false
  /\ is_game_over sample_one_gap <> Ok true.
Proof. repeat split. discriminate. Qed.

(** ** [add_new_tile] on a well-formed instance *)

Lemma setitem_spec {A : Type} (l : list A) :
  forall (i : nat) (x : A),
    (i < length l)%nat -> setitem l i x = Ok (replace_nth l i x).
Proof.
  induction l as [|h t IH]; intros [|i] x H; simpl in *; try lia.
  - reflexivity.
  - rewrite IH by lia. reflexivity.
Qed.

Lemma length_replace_nth {A : Type} (l : list A) :
  forall (i : nat) (x : A), length (replace_nth l i x) = length l.
Proof.
  induction l as [|h t IH]; intros [|i] x; simpl; auto.
Qed.

Lemma nth_replace_nth {A : Type} (l : list A) :
  forall (i j : nat) (x d : A),
    (i < length l)%nat ->
    nth j (replace_nth l i x) d = if (j =? i)%nat then x else nth j l d.
Proof.
  induction l as [|h t IH]; intros [|i] [|j] x d H; simpl in *;
    try lia; try reflexivity.
  apply IH. lia.
Qed.

Lemma In_replace_nth {A : Type} (l : list A) :
  forall (i : nat) (x y : A), In y (replace_nth l i x) -> y = x \/ In y l.
Proof.
  induction l as [|h t IH]; intros [|i] x y H; simpl in *; try tauto.
  - destruct H as [H|H]; auto.
  - destruct H as [H|H]; auto. destruct (IH _ _ _ H); auto.
Qed.

Lemma set_cell_square (n : nat) (b : Board) (r c : nat) (v : Z) :
  square n b -> (r < n)%nat -> (c < n)%nat ->
  set_cell b r c v = Ok (place b r c v).
Proof.
  intros [Hl Hr] Hrn Hcn. unfold set_cell, getitem, place.
  rewrite (nth_error_nth' b []) by lia. cbn [bind].
  rewrite setitem_spec.
  2:{ rewrite (Hr (nth r b [])); [exact Hcn|]. apply nth_In. lia. }
  cbn [bind]. apply setitem_spec. lia.
Qed.

Lemma square_place (n : nat) (b : Board) (r c : nat) (v : Z) :
  square n b -> (r < n)%nat -> square n (place b r c v).
Proof.
  intros [Hl Hr] Hrn. unfold place. split.
  - now rewrite length_replace_nth.
  - intros row Hrow. apply In_replace_nth in Hrow as [->|Hrow]; [|auto].
    rewrite length_replace_nth. apply Hr, nth_In. lia.
Qed.

Lemma at_place (n : nat) (b : Board) (r c : nat) (v : Z) (r' c' : nat) :
  square n b -> (r < n)%nat -> (c < n)%nat ->
  at_ (place b r c v) r' c'
  = if ((r' =? r) && (c' =? c))%nat then v else at_ b r' c'.
Proof.
  intros [Hl Hr] Hrn Hcn. unfold at_, place.
  rewrite nth_replace_nth by lia.
  destruct (Nat.eqb_spec r' r) as [->|Hne]; [|reflexivity].
  rewrite nth_replace_nth; [reflexivity|].
  rewrite (Hr (nth r b [])); [exact Hcn|]. apply nth_In. lia.
Qed.

Lemma all_cells_place (P : Z -> bool) (b : Board) (r c : nat) (v : Z) :
  (r < length b)%nat ->
  all_cells P b = true -> P v = true -> all_cells P (place b r c v) = true.
Proof.
  rewrite !all_cells_spec. intros Hr H Hv row Hrow x Hx. unfold place in Hrow.
  apply In_replace_nth in Hrow as [->|Hrow]; [|eauto].
  apply In_replace_nth in Hx as [->|Hx]; [exact Hv|].
  apply (H (nth r b [])); [apply nth_In; lia|exact Hx].
Qed.

Lemma In_empty_cells (n : nat) (b : Board) (r c : nat) :
  In (r, c) (empty_cells n b)
  <-> (r < n)%nat /\ (c < n)%nat /\ at_ b r c = 0.
Proof.
  unfold empty_cells. rewrite in_flat_map. split.
  - intros (r0 & Hr0 & H). apply filter_In in H as [H Hz].
    apply in_map_iff in H as (c0 & E & Hc0). injection E as -> ->.
    apply in_seq in Hr0, Hc0. apply Z.eqb_eq in Hz. simpl in Hz.
    repeat split; (lia || assumption).
  - intros (Hr & Hc & Hz). exists r. split; [apply in_seq; lia|].
    apply filter_In. split.
    + apply in_map. apply in_seq. lia.
    + simpl. now apply Z.eqb_eq.
Qed.

Lemma empty_cells_nil (n : nat) (b : Board) :
  empty_cells n b = [] <-> has_empty n b = false.
Proof.
  rewrite has_empty_false. unfold full. split.
  - intros E r c Hr Hc Hz.
    assert (H : In (r, c) (empty_cells n b)) by now apply In_empty_cells.
    now rewrite E in H.
  - intros H. destruct (empty_cells n b) as [|[r c] l] eqn:E; [reflexivity|].
    assert (Hin : In (r, c) (empty_cells n b)) by (rewrite E; now left).
    apply In_empty_cells in Hin as (Hr & Hc & Hz). now destruct (H r c).
Qed.

Lemma for_acc_ext {X S : Type} (xs : list X) (f g : X -> S -> result S) :
  (forall x s, In x xs -> f x s = g x s) ->
  forall s, for_acc xs f s = for_acc xs g s.
Proof.
  induction xs as [|x xs IH]; intros H s; simpl; [reflexivity|].
  rewrite (H x s) by now left. destruct (g x s); simpl; try reflexivity.
  apply IH. intros y t Hy. apply H. now right.
Qed.

Lemma for_acc_filter {X Y : Type} (xs : list X) (k : X -> Y) (q : Y -> bool) :
  forall acc : list Y,
    for_acc xs (fun x acc => Ok (if q (k x) then acc ++ [k x] else acc)) acc
    = Ok (acc ++ filter q (map k xs)).
Proof.
  induction xs as [|x xs IH]; intros acc; simpl.
  - now rewrite app_nil_r.
  - rewrite IH. destruct (q (k x)); [now rewrite <- app_assoc|reflexivity].
Qed.

Lemma for_acc_flat_map {X Y : Type} (xs : list X) (F : X -> list Y) :
  forall acc : list Y,
    for_acc xs (fun x acc => Ok (acc ++ F x)) acc = Ok (acc ++ flat_map F xs).
Proof.
  induction xs as [|x xs IH]; intros acc; simpl.
  - now rewrite app_nil_r.
  - rewrite IH. now rewrite <- app_assoc.
Qed.

Lemma collect_empty_cells_spec (self : Game2048) :
  well_formed self = true ->
  collect_empty_cells self
  = Ok (empty_cells (Z.to_nat (size self)) (board self)).
Proof.
  intros Hwf. apply squareb_spec in Hwf. unfold collect_empty_cells, range.
  set (n := Z.to_nat (size self)) in *.
  rewrite (for_acc_ext _ _
             (fun r acc =>
                Ok (acc ++ filter (fun p => at_ (board self) (fst p) (snd p) =? 0)
                             (map (pair r) (seq 0 n))))).
  - now rewrite for_acc_flat_map.
  - intros r acc Hr. apply in_seq in Hr.
    rewrite <- for_acc_filter. apply for_acc_ext. intros c acc' Hc.
    apply in_seq in Hc. rewrite (cell_square n) by (assumption || lia).
    reflexivity.
Qed.

Lemma add_new_tile_spec (rnd : Draw) (self : Game2048) :
  well_formed self = true ->
  let n := Z.to_nat (size self) in
  (has_empty n (board self) = false /\ add_new_tile rnd self = Ok self)
  \/ (exists r c,
         (r < n)%nat /\ (c < n)%nat /\ at_ (board self) r c = 0
         /\ add_new_tile rnd self
            = Ok (set_board self (place (board self) r c (drawn_value rnd)))).
Proof.
  intros Hwf n. unfold add_new_tile.
  rewrite (collect_empty_cells_spec _ Hwf). cbn [bind]. fold n.
  apply squareb_spec in Hwf. fold n in Hwf.
  destruct (empty_cells n (board self)) as [|p l] eqn:E.
  - left. split; [now apply empty_cells_nil|reflexivity].
  - right. set (k := (choice rnd mod length (p :: l))%nat).
    assert (Hk : (k < length (p :: l))%nat)
      by (apply Nat.mod_upper_bound; discriminate).
    unfold getitem. rewrite (nth_error_nth' _ (0%nat, 0%nat) Hk).
    cbn [bind].
    destruct (nth k (p :: l) (0%nat, 0%nat)) as [r c] eqn:Hrc.
    assert (Hin : In (r, c) (empty_cells n (board self))).
    { rewrite E, <- Hrc. now apply nth_In. }
    apply In_empty_cells in Hin as (Hr & Hc & Hz).
    exists r, c. repeat split; try assumption.
    rewrite (set_cell_square n) by assumption. reflexivity.
Qed.

(** ** Tiles are zero or powers of two *)

Lemma is_tile_spec (x : Z) :
  is_tile x = true <-> x = 0 \/ exists k, 1 <= k /\ x = 2 ^ k.
Proof.
  unfold is_tile. rewrite orb_true_iff, andb_true_iff, !Z.eqb_eq, Z.leb_le.
  split.
  - intros [H|[H2 Hp]]; [now left|right].
    exists (Z.log2 x). split; [|exact Hp].
    change 1 with (Z.log2 2). now apply Z.log2_le_mono.
  - intros [H|(k & Hk & ->)]; [now left|right].
    rewrite Z.log2_pow2 by lia. split; [|reflexivity].
    change 2 with (2 ^ 1) at 1. apply Z.pow_le_mono_r; lia.
Qed.

Lemma is_tile_double (a : Z) :
  is_tile a = true -> nonzero a = true -> is_tile (a * 2) = true.
Proof.
  intros Ha Hnz. unfold nonzero in Hnz.
  apply negb_true_iff, Z.eqb_neq in Hnz.
  apply is_tile_spec in Ha as [Ha|(k & Hk & ->)]; [contradiction|].
  apply is_tile_spec. right. exists (k + 1). split; [lia|].
  rewrite Z.pow_add_r by lia. lia.
Qed.

Lemma squareb_zeros (n : nat) : squareb n (repeat (repeat 0 n) n) = true.
Proof.
  apply squareb_spec. split; [apply repeat_length|].
  intros row Hrow. apply repeat_spec in Hrow. subst. apply repeat_length.
Qed.

Lemma all_cells_zeros (P : Z -> bool) (n m : nat) :
  P 0 = true -> all_cells P (repeat (repeat 0 m) n) = true.
Proof.
  intros H. apply all_cells_spec. intros row Hrow x Hx.
  apply repeat_spec in Hrow. subst. apply repeat_spec in Hx. now subst.
Qed.

(** What [add_new_tile] keeps: shape, any cell predicate that holds of 2 and
    4, and every attribute but the board. *)
Lemma add_new_tile_keeps (P : Z -> bool) (rnd : Draw) (self : Game2048) :
  P 2 = true -> P 4 = true ->
  well_formed self = true ->
  all_cells P (board self) = true ->
  exists self',
    add_new_tile rnd self = Ok self'
    /\ well_formed self' = true
    /\ all_cells P (board self') = true
    /\ set_board self' (board self) = self.
Proof.
  intros H2 H4 Hwf HP.
  destruct (add_new_tile_spec rnd self Hwf) as [[_ E]|(r & c & Hr & Hc & _ & E)].
  - exists self. repeat split; try assumption. now destruct self.
  - eexists. split; [exact E|].
    pose proof (proj1 (squareb_spec _ _) Hwf) as Hsq.
    split; [|split].
    + apply squareb_spec. now apply square_place.
    + apply all_cells_place; [destruct Hsq; lia|exact HP|].
      unfold drawn_value. now destruct (below_tenth rnd).
    + now destruct self.
Qed.

(** The only cell [add_new_tile] writes was empty, and it writes 2 or 4. *)
Lemma add_new_tile_writes (rnd : Draw) (self self' : Game2048) :
  well_formed self = true ->
  add_new_tile rnd self = Ok self' ->
  forall r c,
    at_ (board self') r c = at_ (board self) r c
    \/ (at_ (board self) r c = 0
        /\ (at_ (board self') r c = 2 \/ at_ (board self') r c = 4)).
Proof.
  intros Hwf E r c.
  destruct (add_new_tile_spec rnd self Hwf)
    as [[_ E']|(r0 & c0 & Hr & Hc & Hz & E')];
    rewrite E' in E; injection E as <-; [now left|].
  cbn [board set_board].
  rewrite (at_place _ _ _ _ _ _ _ (proj1 (squareb_spec _ _) Hwf) Hr Hc).
  destruct (Nat.eqb_spec r r0) as [->|_]; [|now left].
  destruct (Nat.eqb_spec c c0) as [->|_]; [|now left].
  right. split; [exact Hz|]. unfold drawn_value.
  destruct (below_tenth rnd); auto.
Qed.

Lemma move_keeps (P : Z -> bool) (direction : string) (rnd : Draw)
    (self : Game2048) :
  P 0 = true -> P 2 = true -> P 4 = true ->
  (forall a, P a = true -> nonzero a = true -> P (a * 2) = true) ->
  well_formed self = true ->
  all_cells P (board self) = true ->
  exists r self',
    move direction rnd self = Ok (r, self')
    /\ well_formed self' = true
    /\ all_cells P (board self') = true.
Proof.
  intros H0 H2 H4 Hdbl Hwf HP. unfold move.
  destruct (valid_direction direction) eqn:Hd.
  - rewrite (move_dispatch_spec _ _ Hd). cbn [bind].
    match goal with |- context [Board_eq_dec (board ?s) _] =>
      assert (Hwf1 : well_formed s = true);
      [|assert (HP1 : all_cells P (board s) = true)] end.
    { apply squareb_spec. apply square_shifted. now apply squareb_spec. }
    { now apply all_cells_shifted. }
    destruct (Board_eq_dec _ _) as [_|_]; [eauto|].
    destruct (add_new_tile_keeps P rnd _ H2 H4 Hwf1 HP1)
      as (self2 & E & Hwf2 & HP2 & _).
    rewrite E. cbn [bind]. eauto.
  - rewrite (move_dispatch_invalid _ _ Hd). cbn [bind]. eauto.
Qed.

Lemma init_keeps (P : Z -> bool) (size : Z) (rnd1 rnd2 : Draw) :
  P 0 = true -> P 2 = true -> P 4 = true ->
  exists g,
    __init__ size rnd1 rnd2 = Ok g
    /\ well_formed g = true
    /\ all_cells P (board g) = true
    /\ score g = 0 /\ win_value g = 2048 /\ game_won g = false.
Proof.
  intros H0 H2 H4. unfold __init__.
  set (g0 := mkGame size _ 0 2048 false).
  destruct (add_new_tile_keeps P rnd1 g0 H2 H4) as (g1 & E1 & Hwf1 & HP1 & K1).
  { apply squareb_zeros. }
  { now apply all_cells_zeros. }
  destruct (add_new_tile_keeps P rnd2 g1 H2 H4 Hwf1 HP1)
    as (g2 & E2 & Hwf2 & HP2 & K2).
  exists g2. rewrite E1. cbn [bind]. rewrite E2.
  repeat split; try assumption.
  - rewrite <- K2 in K1. now apply (f_equal score) in K1.
  - rewrite <- K2 in K1. now apply (f_equal win_value) in K1.
  - rewrite <- K2 in K1. now apply (f_equal game_won) in K1.
Qed.

(** C8.  A cell is a tile when it is 0 or a power of two that is at least 2.
    A new game has only tiles, in a size-by-size board; [add_new_tile] and
    [move] return, keep the shape and keep every cell a tile, and the one
    cell [add_new_tile] may change was empty and becomes 2 or 4. *)
Theorem board_cells_stay_tiles :
  (forall x, is_tile x = true <-> x = 0 \/ exists k, 1 <= k /\ x = 2 ^ k)
  /\ (forall size rnd1 rnd2,
        exists g, __init__ size rnd1 rnd2 = Ok g
                  /\ well_formed g = true
                  /\ all_cells is_tile (board g) = true)
  /\ (forall rnd self,
        well_formed self = true ->
        all_cells is_tile (board self) = true ->
        exists self',
          add_new_tile rnd self = Ok self'
          /\ well_formed self' = true
          /\ all_cells is_tile (board self') = true
          /\ forall r c,
               at_ (board self') r c = at_ (board self) r c
               \/ (at_ (board self) r c = 0
                   /\ (at_ (board self') r c = 2
                       \/ at_ (board self') r c = 4)))
  /\ (forall direction rnd self,
        well_formed self = true ->
        all_cells is_tile (board self) = true ->
        exists r self', move direction rnd self = Ok (r, self')
                        /\ well_formed self' = true
                        /\ all_cells is_tile (board self') = true).
Proof.
  split; [exact is_tile_spec|]. split; [|split].
  - intros size rnd1 rnd2.
    destruct (init_keeps is_tile size rnd1 rnd2) as (g & E & Hwf & HP & _);
      try reflexivity.
    eauto.
  - intros rnd self Hwf HP.
    destruct (add_new_tile_keeps is_tile rnd self) as (s & E & Hwf' & HP' & _);
      try reflexivity; try assumption.
    exists s. repeat split; try assumption.
    now apply (add_new_tile_writes rnd).
  - intros direction rnd self Hwf HP.
    apply move_keeps; try reflexivity; try assumption.
    exact is_tile_double.
Qed.

Lemma board_cells_stay_tiles_witness :
  (exists self',
      add_new_tile (mkDraw 5 true) sample_midgame = Ok self'
      /\ well_formed self' = true
      /\ all_cells is_tile (board self') = true
      /\ forall r c,
           at_ (board self') r c = at_ (board sample_midgame) r c
           \/ (at_ (board sample_midgame) r c = 0
               /\ (at_ (board self') r c = 2 \/ at_ (board self') r c = 4)))
  /\ (exists r self', move "a" (mkDraw 7 false) sample_midgame = Ok (r, self')
                      /\ well_formed self' = true
                      /\ all_cells is_tile (board self') = true).
Proof.
  destruct board_cells_stay_tiles as (_ & _ & Hadd & Hmove). split.
  - apply (Hadd (mkDraw 5 true) sample_midgame); reflexivity.
  - apply (Hmove "a"%string (mkDraw 7 false) sample_midgame); reflexivity.
Defined.

(** ** A move that changes the board leaves an empty cell *)

Lemma filter_length_eq {A : Type} (f : A -> bool) (l : list A) :
  length (filter f l) = length l -> filter f l = l.
Proof.
  induction l as [|a l IH]; simpl; [reflexivity|].
  destruct (f a); simpl; intros H.
  - f_equal. apply IH. lia.
  - pose proof (filter_length_le f l). lia.
Qed.

Lemma reduce_row_full (n : Z) (row : list Z) :
  length row = Z.to_nat n ->
  Z.of_nat (length row) <= n ->
  forallb nonzero (reduce_row n row) = true ->
  reduce_row n row = row.
Proof.
  intros Hlen Hle Hnz.
  pose proof (compress_nonzero _ Hnz) as H1.
  rewrite compress_reduce_row in H1.
  pose proof (length_reduce_row n row Hle) as H3.
  pose proof (length_merge_pairs (compress row)) as H4.
  pose proof (length_compress row) as H5.
  rewrite H1, H3 in H4.
  assert (Hc : compress row = row)
    by (apply filter_length_eq; fold (compress row); lia).
  assert (Hg : merge_gains (compress row) = [])
    by (destruct (merge_gains (compress row)); [reflexivity|simpl in H4; lia]).
  rewrite <- H1, (merge_pairs_no_gain _ Hg). exact Hc.
Qed.

Lemma shifted_full_fixed (direction : string) (n : Z) (b : Board) :
  square (Z.to_nat n) b ->
  all_cells nonzero (shifted direction n b) = true ->
  shifted direction n b = b.
Proof.
  intros Hsq Hnz.
  pose proof (square_orient direction _ _ Hsq) as HsqO.
  pose proof (square_reduce _ _ HsqO) as HsqR.
  apply (all_cells_orient nonzero direction) in Hnz.
  unfold shifted in *. rewrite (orient_unorient _ _ _ HsqR) in Hnz.
  assert (E : map (reduce_row n) (orient direction b) = orient direction b).
  { rewrite <- (map_id (orient direction b)) at 2.
    apply map_ext_in. intros row Hrow.
    destruct HsqO as [HlO HrO].
    assert (Hpos : (1 <= length (orient direction b))%nat)
      by (destruct (orient direction b); [destruct Hrow|simpl; lia]).
    apply reduce_row_full.
    - now apply HrO.
    - rewrite (HrO row Hrow). lia.
    - unfold all_cells in Hnz. rewrite forallb_forall in Hnz.
      apply Hnz. now apply in_map. }
  rewrite E. now apply (unorient_orient _ (Z.to_nat n)).
Qed.

Lemma full_all_cells (n : nat) (b : Board) :
  square n b -> has_empty n b = false -> all_cells nonzero b = true.
Proof.
  intros Hsq H. apply has_empty_false in H. apply all_cells_spec.
  intros row Hrow x Hx.
  destruct (square_cell_of_In n b x Hsq) as (r & c & Hr & Hc & <-).
  { apply in_concat. eauto. }
  unfold nonzero. apply negb_true_iff, Z.eqb_neq. now apply H.
Qed.

Lemma shifted_changed_has_empty (direction : string) (n : Z) (b : Board) :
  square (Z.to_nat n) b ->
  shifted direction n b <> b ->
  has_empty (Z.to_nat n) (shifted direction n b) = true.
Proof.
  intros Hsq Hne. apply not_false_is_true. intros H. apply Hne.
  apply shifted_full_fixed; [exact Hsq|].
  apply (full_all_cells (Z.to_nat n)); [now apply square_shifted|exact H].
Qed.

(** C10.  When a valid direction changes a size-by-size board, the changed
    board has an empty cell; so [add_new_tile] finds its list of empty cells
    non-empty, and [move] returns [True] with a board that differs from the
    changed one in exactly one cell, which was empty and now holds 2 or 4. *)
Theorem changed_move_spawns_one_tile
    (direction : string) (rnd : Draw) (self self1 : Game2048) :
  valid_direction direction = true ->
  well_formed self = true ->
  move_dispatch direction self = Ok (Some self1) ->
  board self1 <> board self ->
  (exists r c, cell (board self1) r c = Ok 0)
  /\ (exists e es, collect_empty_cells self1 = Ok (e :: es))
  /\ (exists r c v b2,
         cell (board self1) r c = Ok 0
         /\ (v = 2 \/ v = 4)
         /\ set_cell (board self1) r c v = Ok b2
         /\ move direction rnd self = Ok (true, set_board self1 b2)
         /\ forall r' c',
              at_ b2 r' c' = if ((r' =? r) && (c' =? c))%nat then v
                             else at_ (board self1) r' c').
Proof.
  intros Hd Hwf Hm Hne.
  pose proof Hm as Hm'.
  rewrite (move_dispatch_spec _ _ Hd) in Hm'. injection Hm' as Hself1.
  pose proof (proj1 (squareb_spec _ _) Hwf) as Hsq.
  assert (Hsz : size self1 = size self) by now subst self1.
  assert (Hb1 : board self1 = shifted direction (size self) (board self))
    by now subst self1.
  assert (Hsq1 : square (Z.to_nat (size self1)) (board self1)).
  { rewrite Hsz, Hb1. now apply square_shifted. }
  assert (Hwf1 : well_formed self1 = true) by now apply squareb_spec.
  assert (Hempty : has_empty (Z.to_nat (size self1)) (board self1) = true).
  { rewrite Hsz, Hb1. apply shifted_changed_has_empty; [exact Hsq|].
    now rewrite <- Hb1. }
  destruct (add_new_tile_spec rnd self1 Hwf1)
    as [[Hfull _]|(r & c & Hr & Hc & Hz & Hadd)]; [congruence|].
  assert (Hcell : cell (board self1) r c = Ok 0).
  { rewrite (cell_square _ _ _ _ Hsq1 Hr Hc). now rewrite Hz. }
  split; [eauto|]. split.
  - rewrite (collect_empty_cells_spec _ Hwf1).
    destruct (empty_cells _ _) as [|e es] eqn:E; [|eauto].
    apply empty_cells_nil in E. congruence.
  - exists r, c, (drawn_value rnd), (place (board self1) r c (drawn_value rnd)).
    split; [exact Hcell|]. split.
    { unfold drawn_value. destruct (below_tenth rnd); auto. }
    split; [now apply (set_cell_square (Z.to_nat (size self1)))|]. split.
    + unfold move. rewrite Hm. cbn [bind].
      destruct (Board_eq_dec _ _) as [Heq|_]; [contradiction|].
      rewrite Hadd. reflexivity.
    + intros r' c'. now apply (at_place (Z.to_nat (size self1))).
Qed.

Lemma changed_move_spawns_one_tile_witness :
  (exists r c, cell (board sample_midgame_left) r c = Ok 0)
  /\ (exists e es, collect_empty_cells sample_midgame_left = Ok (e :: es))
  /\ (exists r c v b2,
         cell (board sample_midgame_left) r c = Ok 0
         /\ (v = 2 \/ v = 4)
         /\ set_cell (board sample_midgame_left) r c v = Ok b2
         /\ move "a" (mkDraw 7 false) sample_midgame
            = Ok (true, set_board sample_midgame_left b2)
         /\ forall r' c',
              at_ b2 r' c' = if ((r' =? r) && (c' =? c))%nat then v
                             else at_ (board sample_midgame_left) r' c').
Proof.
  apply (changed_move_spawns_one_tile "a" (mkDraw 7 false)
           sample_midgame sample_midgame_left);
    try reflexivity.
  discriminate.
Defined.

(** ** The win flag *)

Lemma add_new_tile_frame (rnd : Draw) (self self' : Game2048) :
  add_new_tile rnd self = Ok self' -> set_board self' (board self) = self.
Proof.
  unfold add_new_tile. destruct (collect_empty_cells self) as [l| |]; try discriminate.
  cbn [bind]. destruct l as [|p l]; [intros H; injection H as <-; now destruct self|].
  destruct (getitem _ _) as [[r c]| |]; try discriminate. cbn [bind].
  destruct (set_cell _ _ _ _) as [b| |]; try discriminate. cbn [bind].
  intros H. injection H as <-. now destruct self.
Qed.

Lemma add_new_tile_set_game_won (rnd : Draw) (self self' : Game2048) (w : bool) :
  add_new_tile rnd self = Ok self' ->
  add_new_tile rnd (set_game_won self w) = Ok (set_game_won self' w).
Proof.
  unfold add_new_tile.
  change (collect_empty_cells (set_game_won self w))
    with (collect_empty_cells self).
  destruct (collect_empty_cells self) as [l| |]; try discriminate.
  cbn [bind]. destruct l as [|p l]; [intros H; now injection H as <-|].
  destruct (getitem _ _) as [[r c]| |]; try discriminate. cbn [bind].
  change (board (set_game_won self w)) with (board self).
  destruct (set_cell _ _ _ _) as [b| |]; try discriminate. cbn [bind].
  intros H. now injection H as <-.
Qed.

Lemma board_hit_spec (win : Z) (b : Board) :
  board_hit win b = true
  <-> exists row, In row b /\ In win (merge_gains (compress row)).
Proof.
  unfold board_hit, row_hit. rewrite existsb_exists. split.
  - intros (row & Hrow & H). apply existsb_exists in H as (v & Hv & E).
    apply Z.eqb_eq in E. subst. eauto.
  - intros (row & Hrow & H). exists row. split; [exact Hrow|].
    apply existsb_exists. exists win. split; [exact H|apply Z.eqb_refl].
Qed.

Lemma move_flag (direction : string) (rnd : Draw) (self self' : Game2048)
    (r : bool) :
  move direction rnd self = Ok (r, self') ->
  win_value self' = win_value self
  /\ game_won self'
     = game_won self
       || (valid_direction direction
           && board_hit (win_value self) (orient direction (board self))).
Proof.
  unfold move. destruct (valid_direction direction) eqn:Hd.
  - rewrite (move_dispatch_spec _ _ Hd). cbn [bind].
    destruct (Board_eq_dec _ _) as [_|_].
    + intros H. injection H as _ <-. now split.
    + destruct (add_new_tile rnd _) as [self2| |] eqn:E; try discriminate.
      cbn [bind]. intros H. injection H as _ <-.
      apply add_new_tile_frame in E.
      split.
      * now apply (f_equal win_value) in E.
      * now apply (f_equal game_won) in E.
  - rewrite (move_dispatch_invalid _ _ Hd). cbn [bind].
    intros H. injection H as _ <-. split; [reflexivity|].
    now rewrite orb_false_r.
Qed.

Lemma move_ignores_flag (direction : string) (rnd : Draw)
    (self self' : Game2048) (r : bool) :
  move direction rnd (set_game_won self false) = Ok (r, self') ->
  move direction rnd (set_game_won self true) = Ok (r, set_game_won self' true).
Proof.
  unfold move. destruct (valid_direction direction) eqn:Hd.
  - rewrite !(move_dispatch_spec _ _ Hd). cbn [bind].
    cbn [board set_game_won size win_value set_board].
    destruct (Board_eq_dec _ _) as [_|_].
    + intros H. injection H as <- <-. reflexivity.
    + destruct (add_new_tile rnd _) as [self2| |] eqn:E; try discriminate.
      cbn [bind]. intros H. injection H as <- <-.
      apply (add_new_tile_set_game_won _ _ _ true) in E.
      unfold set_game_won, set_board, scored, set_score in *. simpl in *.
      rewrite E. reflexivity.
  - rewrite !(move_dispatch_invalid _ _ Hd). cbn [bind].
    intros H. injection H as <- <-. reflexivity.
Qed.

(** C7.  A new game has the win flag down and the win value 2048, which no
    method changes.  [add_new_tile] leaves the flag alone.  After [move] the
    flag is up exactly when it was up before or the move, in a valid
    direction, merged two cells into the win value; so it never goes down.
    A raised flag blocks nothing: [move] and [is_game_over] do to an
    instance with the flag up what they do with the flag down. *)
Theorem win_flag_latches :
  (forall size rnd1 rnd2,
      exists g, __init__ size rnd1 rnd2 = Ok g
                /\ game_won g = false /\ win_value g = 2048)
  /\ (forall rnd self self',
        add_new_tile rnd self = Ok self' ->
        game_won self' = game_won self /\ win_value self' = win_value self)
  /\ (forall direction rnd self r self',
        move direction rnd self = Ok (r, self') ->
        win_value self' = win_value self
        /\ (game_won self' = true
            <-> game_won self = true
                \/ (valid_direction direction = true
                    /\ exists row,
                         In row (orient direction (board self))
                         /\ In (win_value self) (merge_gains (compress row)))))
  /\ (forall direction rnd self r self',
        move direction rnd (set_game_won self false) = Ok (r, self') ->
        move direction rnd (set_game_won self true)
        = Ok (r, set_game_won self' true))
  /\ (forall self w, is_game_over (set_game_won self w) = is_game_over self)
  /\ (forall direction rnd self,
        well_formed self = true ->
        exists r self', move direction rnd self = Ok (r, self')).
Proof.
  split; [|split; [|split; [|split; [|split]]]].
  - intros size rnd1 rnd2.
    destruct (init_keeps (fun _ => true) size rnd1 rnd2)
      as (g & E & _ & _ & _ & Hw & Hg); try reflexivity.
    eauto.
  - intros rnd self self' E. apply add_new_tile_frame in E.
    split; [now apply (f_equal game_won) in E
           |now apply (f_equal win_value) in E].
  - intros direction rnd self r self' E.
    destruct (move_flag _ _ _ _ _ E) as [Hw Hg]. split; [exact Hw|].
    rewrite Hg, orb_true_iff, andb_true_iff, board_hit_spec. reflexivity.
  - intros direction rnd self r self'. apply move_ignores_flag.
  - reflexivity.
  - intros direction rnd self Hwf.
    destruct (move_keeps (fun _ => true) direction rnd self)
      as (r & self' & E & _); try reflexivity; try assumption.
    + apply all_cells_spec. reflexivity.
    + eauto.
Qed.

Lemma win_flag_latches_witness :
  move "a" (mkDraw 0 false) sample_midgame = Ok (true, sample_midgame_moved)
  /\ game_won sample_midgame = false
  /\ game_won sample_midgame_moved = true
  /\ (game_won sample_midgame = true
      \/ (valid_direction "a" = true
          /\ exists row,
               In row (orient "a" (board sample_midgame))
               /\ In (win_value sample_midgame) (merge_gains (compress row))))
  /\ move "a" (mkDraw 0 false) (set_game_won sample_midgame true)
     = Ok (true, set_game_won sample_midgame_moved true)
  /\ (game_won sample_midgame_moved = game_won sample_midgame_left
      /\ win_value sample_midgame_moved = win_value sample_midgame_left)
  /\ (exists r self', move "s" (mkDraw 2 true) sample_midgame_moved
                      = Ok (r, self')).
Proof.
  destruct win_flag_latches as (_ & Hadd & Hmove & Hfree & _ & Htotal).
  split; [reflexivity|]. split; [reflexivity|]. split; [reflexivity|].
  split; [|split; [|split]].
  - apply (Hmove "a"%string (mkDraw 0 false) sample_midgame true
             sample_midgame_moved eq_refl). reflexivity.
  - apply (Hfree "a"%string (mkDraw 0 false) sample_midgame true
             sample_midgame_moved). reflexivity.
  - apply (Hadd (mkDraw 0 false) sample_midgame_left sample_midgame_moved).
    reflexivity.
  - apply (Htotal "s"%string (mkDraw 2 true) sample_midgame_moved).
    reflexivity.
Defined.

(** * Further properties of the engine *)

(** ** [_reverse] and [_transpose] on their own *)

Lemma nth_row_map {B : Type} (f : list Z -> list B) (b : Board) (r : nat) :
  f [] = [] -> nth r (map f b) [] = f (nth r b []).
Proof. intros H. rewrite <- H at 1. apply map_nth. Qed.

(** X1.  [_reverse] keeps the number of rows and the length of every row,
    puts the cell of column [c] in column [len - 1 - c], and undoes itself,
    on every board, ragged or not. *)
Theorem reverse_mirrors_rows (b : Board) :
  length (_reverse b) = length b
  /\ (forall r, length (nth r (_reverse b) []) = length (nth r b []))
  /\ (forall r c,
        (c < length (nth r b []))%nat ->
        at_ (_reverse b) r c = at_ b r (length (nth r b []) - 1 - c))
  /\ _reverse (_reverse b) = b.
Proof.
  unfold _reverse, at_. split; [apply length_map|]. split; [|split].
  - intros r. rewrite (nth_row_map (@rev Z)) by reflexivity. apply length_rev.
  - intros r c Hc. rewrite (nth_row_map (@rev Z)) by reflexivity.
    rewrite rev_nth by exact Hc. f_equal. lia.
  - apply reverse_reverse.
Qed.

Lemma reverse_mirrors_rows_witness :
  at_ (_reverse [[1; 2; 3]; [4; 5]]) 0 0 = at_ [[1; 2; 3]; [4; 5]] 0 2.
Proof.
  apply (proj1 (proj2 (proj2 (reverse_mirrors_rows [[1; 2; 3]; [4; 5]]))) 0%nat 0%nat).
  simpl. lia.
Defined.

Lemma at_transpose (b : Board) (r c : nat) :
  (r < shortest b)%nat -> (c < length b)%nat ->
  at_ (_transpose b) r c = at_ b c r.
Proof.
  intros Hr Hc. unfold at_, _transpose.
  rewrite (nth_indep _ [] ((fun j => map (fun row => nth j row 0) b) 0%nat))
    by now rewrite length_map, length_seq.
  rewrite (map_nth (fun j => map (fun row : list Z => nth j row 0) b)).
  rewrite seq_nth by exact Hr. simpl. now apply nth_map_column.
Qed.

Lemma rectangular_shortest (k m : nat) (b : Board) :
  rectangular k m b -> (1 <= k)%nat -> shortest b = m.
Proof.
  intros [Hl Hr] Hk. apply shortest_rect; [|exact Hr].
  destruct b; [simpl in Hl; lia|discriminate].
Qed.

(** X2.  On a board of [k >= 1] rows of [m] cells each, [_transpose] gives
    [m] rows of [k] cells, the cell at row [r], column [c] being the one the
    board has at row [c], column [r]; when [m >= 1] transposing twice gives
    the board back. *)
Theorem transpose_swaps_rows_and_columns (k m : nat) (b : Board) :
  rectangular k m b ->
  (1 <= k)%nat ->
  rectangular m k (_transpose b)
  /\ (forall r c, (r < m)%nat -> (c < k)%nat ->
        at_ (_transpose b) r c = at_ b c r)
  /\ ((1 <= m)%nat -> _transpose (_transpose b) = b).
Proof.
  intros Hrect Hk. pose proof (rectangular_shortest _ _ _ Hrect Hk) as Hs.
  destruct Hrect as [Hl Hr]. split; [|split].
  - split.
    + unfold _transpose. now rewrite length_map, length_seq.
    + intros row Hrow. unfold _transpose in Hrow.
      apply in_map_iff in Hrow as (j & <- & _). now rewrite length_map.
  - intros r c Hrm Hck. apply at_transpose; lia.
  - intros Hm. rewrite transpose_transpose, Hs.
    destruct (Nat.eqb_spec m 0) as [->|_]; [lia|].
    rewrite <- (map_id b) at 2. apply map_ext_in. intros row Hrow.
    rewrite <- (Hr row Hrow). apply firstn_all.
Qed.

Lemma transpose_swaps_rows_and_columns_witness :
  rectangular 3 2 (_transpose [[1; 2; 3]; [4; 5; 6]])
  /\ _transpose (_transpose [[1; 2; 3]; [4; 5; 6]]) = [[1; 2; 3]; [4; 5; 6]].
Proof.
  assert (H : rectangular 2 3 [[1; 2; 3]; [4; 5; 6]]).
  { split; [reflexivity|]. intros row [<-|[<-|[]]]; reflexivity. }
  destruct (transpose_swaps_rows_and_columns 2 3 _ H) as (H1 & _ & H3);
    [lia|].
  split; [exact H1|]. apply H3. lia.
Defined.



(** ** [_move_left] on any board *)

Lemma length_reduce_row_any (n : Z) (row : list Z) :
  length (reduce_row n row)
  = Nat.max (Z.to_nat n) (length (merge_pairs (compress row))).
Proof. unfold reduce_row, pad. rewrite length_app, repeat_length. lia. Qed.

(** X4.  [_move_left] returns for every board, whatever the shape: it never
    indexes outside a row and its loop ends.  It gives one row per row of
    the board, each at least [size] long and no longer than the longer of
    [size] and the row it came from (a row longer than [size] is not cut),
    and it changes neither the board attribute, nor [size], nor the win
    value. *)
Theorem move_left_returns_one_row_per_row (self : Game2048) (b : Board) :
  exists new_board self',
    _move_left self b = Ok (new_board, self')
    /\ length new_board = length b
    /\ (forall i, (i < length b)%nat ->
          (Z.to_nat (size self) <= length (nth i new_board []))%nat
          /\ (length (nth i new_board [])
              <= Nat.max (Z.to_nat (size self)) (length (nth i b [])))%nat)
    /\ board self' = board self
    /\ size self' = size self
    /\ win_value self' = win_value self.
Proof.
  eexists _, _. split; [apply _move_left_spec|].
  split; [apply length_map|]. split; [|now repeat split].
  intros i Hi.
  rewrite (nth_indep _ [] (reduce_row (size self) [])) by now rewrite length_map.
  rewrite (map_nth (reduce_row (size self))), length_reduce_row_any.
  pose proof (length_merge_pairs (compress (nth i b []))).
  pose proof (length_compress (nth i b [])). lia.
Qed.

Lemma move_left_returns_one_row_per_row_witness :
  exists new_board self',
    _move_left (g4 []) [[2; 2; 2; 2; 2; 2]; [2]] = Ok (new_board, self')
    /\ (4 <= length (nth 0 new_board []))%nat
    /\ (length (nth 0 new_board []) <= 6)%nat.
Proof.
  destruct (move_left_returns_one_row_per_row (g4 []) [[2; 2; 2; 2; 2; 2]; [2]])
    as (nb & s' & E & _ & H & _).
  exists nb, s'. split; [exact E|]. apply (H 0%nat). simpl. lia.
Defined.

(** ** Sums of tiles *)

Lemma sumZ_rev (l : list Z) : sumZ (rev l) = sumZ l.
Proof.
  induction l as [|a l IH]; simpl; [reflexivity|].
  rewrite sumZ_app. simpl. lia.
Qed.

Lemma board_sum_reverse (b : Board) : board_sum (_reverse b) = board_sum b.
Proof.
  unfold board_sum, _reverse. rewrite map_map. f_equal.
  apply map_ext. apply sumZ_rev.
Qed.

Lemma board_sum_reduce (n : Z) (b : Board) :
  board_sum (map (reduce_row n) b) = board_sum b.
Proof.
  unfold board_sum. rewrite map_map. f_equal.
  apply map_ext. apply sumZ_reduce_row.
Qed.

Lemma sumZ_map_add {X : Type} (f g : X -> Z) (l : list X) :
  sumZ (map (fun x => f x + g x) l) = sumZ (map f l) + sumZ (map g l).
Proof. induction l; simpl in *; lia. Qed.

Lemma sumZ_columns (m : nat) (b : Board) :
  (forall row, In row b -> length row = m) ->
  sumZ (map (fun j => sumZ (map (fun row => nth j row 0) b)) (seq 0 m))
  = board_sum b.
Proof.
  unfold board_sum. induction b as [|row b IH]; intros H.
  - simpl. induction (seq 0 m); simpl in *; lia.
  - cbn [map sumZ fold_right].
    rewrite (sumZ_map_add (fun j => nth j row 0)
               (fun j => sumZ (map (fun r => nth j r 0) b))).
    fold (sumZ (map sumZ b)).
    rewrite IH by (intros r Hr; apply H; now right).
    rewrite map_nth_seq by (rewrite (H row) by (now left); lia).
    rewrite <- (H row) by now left. now rewrite firstn_all.
Qed.

Lemma board_sum_transpose (n : nat) (b : Board) :
  square n b -> board_sum (_transpose b) = board_sum b.
Proof.
  intros Hsq. pose proof (square_shortest _ _ Hsq) as Hs.
  destruct Hsq as [_ Hr].
  unfold _transpose. rewrite Hs. unfold board_sum at 1. rewrite map_map.
  now apply sumZ_columns.
Qed.

Lemma board_sum_orient (direction : string) (n : nat) (b : Board) :
  square n b -> board_sum (orient direction b) = board_sum b.
Proof.
  intros H. unfold orient.
  repeat match goal with |- context [String.eqb ?a ?b] =>
                           destruct (String.eqb a b) end;
    rewrite ?board_sum_reverse, ?(board_sum_transpose n); auto.
Qed.

Lemma board_sum_unorient (direction : string) (n : nat) (b : Board) :
  square n b -> board_sum (unorient direction b) = board_sum b.
Proof.
  intros H. unfold unorient.
  repeat match goal with |- context [String.eqb ?a ?b] =>
                           destruct (String.eqb a b) end;
    rewrite ?(board_sum_transpose n), ?board_sum_reverse;
    auto using square_reverse.
Qed.

Lemma board_sum_shifted (direction : string) (s : Z) (b : Board) :
  square (Z.to_nat s) b -> board_sum (shifted direction s b) = board_sum b.
Proof.
  intros H. unfold shifted.
  rewrite (board_sum_unorient _ (Z.to_nat s))
    by now apply square_reduce, square_orient.
  rewrite board_sum_reduce. now apply (board_sum_orient _ (Z.to_nat s)).
Qed.

Lemma sumZ_replace_nth (l : list Z) :
  forall (i : nat) (x : Z),
    (i < length l)%nat -> sumZ (replace_nth l i x) = sumZ l + x - nth i l 0.
Proof.
  induction l as [|a l IH]; intros [|i] x H; simpl in *; try lia.
  rewrite IH by lia. lia.
Qed.

Lemma map_replace_nth {A B : Type} (f : A -> B) (l : list A) :
  forall (i : nat) (x : A),
    map f (replace_nth l i x) = replace_nth (map f l) i (f x).
Proof.
  induction l as [|a l IH]; intros [|i] x; simpl; try reflexivity.
  now rewrite IH.
Qed.

Lemma board_sum_place (n : nat) (b : Board) (r c : nat) (v : Z) :
  square n b -> (r < n)%nat -> (c < n)%nat ->
  board_sum (place b r c v) = board_sum b + v - at_ b r c.
Proof.
  intros [Hl Hr] Hrn Hcn. unfold board_sum, place, at_.
  rewrite map_replace_nth, sumZ_replace_nth by (rewrite length_map; lia).
  rewrite sumZ_replace_nth.
  2:{ rewrite (Hr (nth r b [])); [exact Hcn|]. apply nth_In. lia. }
  rewrite (nth_indep (map sumZ b) 0 (sumZ [])) by (rewrite length_map; lia).
  rewrite (map_nth sumZ). lia.
Qed.

(** ** Counting the empty cells *)

Lemma zeros_replace_nth (row : list Z) :
  forall (c : nat) (v : Z),
    (c < length row)%nat -> nth c row 0 = 0 -> v <> 0 ->
    (length (filter (fun x => (x =? 0)%Z) (replace_nth row c v)) + 1
     = length (filter (fun x => (x =? 0)%Z) row))%nat.
Proof.
  induction row as [|a row IH]; intros [|c] v Hc Hz Hv; simpl in *; try lia.
  - subst a. apply Z.eqb_neq in Hv. rewrite Hv. simpl. lia.
  - destruct (a =? 0); simpl; rewrite <- (IH c v) by (lia || assumption); lia.
Qed.

Lemma count_empty_place (b : Board) :
  forall (r c : nat) (v : Z),
    (r < length b)%nat -> (c < length (nth r b []))%nat ->
    at_ b r c = 0 -> v <> 0 ->
    (count_empty (place b r c v) + 1 = count_empty b)%nat.
Proof.
  unfold count_empty, place, at_.
  induction b as [|row b IH]; intros [|r] c v Hr Hc Hz Hv; simpl in *; try lia.
  - rewrite !filter_app, !length_app.
    rewrite <- (zeros_replace_nth row c v) by assumption. lia.
  - rewrite !filter_app, !length_app.
    rewrite <- (IH r c v) by (lia || assumption). lia.
Qed.

Lemma drawn_value_cases (rnd : Draw) : drawn_value rnd = 2 \/ drawn_value rnd = 4.
Proof. unfold drawn_value. destruct (below_tenth rnd); auto. Qed.

Lemma add_new_tile_accounting (rnd : Draw) (self self' : Game2048) :
  well_formed self = true ->
  add_new_tile rnd self = Ok self' ->
  (count_empty (board self) = 0%nat -> self' = self)
  /\ ((1 <= count_empty (board self))%nat ->
      (count_empty (board self') + 1 = count_empty (board self))%nat
      /\ board_sum (board self')
         = board_sum (board self) + drawn_value rnd).
Proof.
  intros Hwf Hadd. pose proof (proj1 (squareb_spec _ _) Hwf) as Hsq.
  destruct (add_new_tile_spec rnd self Hwf)
    as [[Hfull E]|(r & c & Hr & Hc & Hz & E)];
    rewrite E in Hadd; injection Hadd as <-.
  - split; [reflexivity|].
    intros Hcount. rewrite (has_empty_of_count _ _ Hsq Hcount) in Hfull.
    discriminate.
  - cbn [board set_board].
    assert (Hcount : (count_empty (place (board self) r c (drawn_value rnd)) + 1
                      = count_empty (board self))%nat).
    { destruct Hsq as [Hl Hrow]. apply count_empty_place; try assumption.
      - lia.
      - rewrite (Hrow (nth r (board self) [])); [exact Hc|]. apply nth_In. lia.
      - destruct (drawn_value_cases rnd) as [-> | ->]; discriminate. }
    split; [intros H0; lia|]. intros _. split; [exact Hcount|].
    rewrite (board_sum_place _ _ _ _ _ Hsq Hr Hc), Hz. lia.
Qed.

(** X5.  On a size-by-size board [add_new_tile] returns.  When no cell is
    empty it leaves the instance as it is; otherwise exactly one empty cell
    is filled: the number of empty cells drops by one and the sum of the
    cells grows by the drawn value, 2 or 4. *)
Theorem add_new_tile_fills_one_empty_cell (rnd : Draw) (self : Game2048) :
  well_formed self = true ->
  exists self',
    add_new_tile rnd self = Ok self'
    /\ (count_empty (board self) = 0%nat -> self' = self)
    /\ ((1 <= count_empty (board self))%nat ->
        (count_empty (board self') + 1 = count_empty (board self))%nat
        /\ board_sum (board self')
           = board_sum (board self) + drawn_value rnd
        /\ (drawn_value rnd = 2 \/ drawn_value rnd = 4)).
Proof.
  intros Hwf.
  destruct (add_new_tile_keeps (fun _ => true) rnd self)
    as (self' & E & _); try reflexivity; try assumption.
  { apply all_cells_spec. reflexivity. }
  exists self'. split; [exact E|].
  destruct (add_new_tile_accounting _ _ _ Hwf E) as [H0 H1].
  split; [exact H0|]. intros Hc. destruct (H1 Hc) as [Hn Hs].
  repeat split; try assumption. apply drawn_value_cases.
Qed.

Lemma add_new_tile_fills_one_empty_cell_witness :
  exists self',
    add_new_tile (mkDraw 5 true) sample_midgame = Ok self'
    /\ (count_empty (board self') + 1 = count_empty (board sample_midgame))%nat
    /\ board_sum (board self') = board_sum (board sample_midgame) + 4.
Proof.
  destruct (add_new_tile_fills_one_empty_cell (mkDraw 5 true) sample_midgame
              eq_refl) as (s & E & _ & H).
  exists s. split; [exact E|].
  assert (Hc : (1 <= count_empty (board sample_midgame))%nat)
    by (vm_compute; lia).
  destruct (H Hc) as (H1 & H2 & _). split; [exact H1|exact H2].
Defined.

(** ** What one call of [move] does to the board and the score *)

Lemma move_outcome (direction : string) (rnd : Draw) (self self' : Game2048)
    (r : bool) :
  well_formed self = true ->
  move direction rnd self = Ok (r, self') ->
  (r = false /\ self' = self)
  \/ (r = true
      /\ valid_direction direction = true
      /\ shifted direction (size self) (board self) <> board self
      /\ exists r0 c0,
           (r0 < Z.to_nat (size self))%nat /\ (c0 < Z.to_nat (size self))%nat
           /\ at_ (shifted direction (size self) (board self)) r0 c0 = 0
           /\ self' = set_board
                        (scored self
                           (board_gain (orient direction (board self)))
                           (board_hit (win_value self)
                              (orient direction (board self))))
                        (place (shifted direction (size self) (board self))
                           r0 c0 (drawn_value rnd))).
Proof.
  intros Hwf. pose proof (proj1 (squareb_spec _ _) Hwf) as Hsq.
  unfold move. destruct (valid_direction direction) eqn:Hd.
  - rewrite (move_dispatch_spec _ _ Hd). cbn [bind].
    destruct (Board_eq_dec _ _) as [Heq|Hne]; cbn [board set_board] in *.
    + intros H. injection H as <- <-. left. split; [reflexivity|].
      destruct (shifted_fixed_no_gain direction (size self) (win_value self)
                  (board self) Heq) as [-> ->].
      rewrite scored_zero, Heq. now destruct self.
    + match goal with |- context [add_new_tile rnd ?s] =>
        assert (Hwf1 : well_formed s = true)
          by (apply squareb_spec; now apply square_shifted);
        destruct (add_new_tile_spec rnd s Hwf1)
          as [[Hfull _]|(r0 & c0 & Hr & Hc & Hz & E)] end.
      * cbn [board set_board size scored set_game_won set_score] in Hfull.
        rewrite (shifted_changed_has_empty _ _ _ Hsq Hne) in Hfull.
        discriminate.
      * rewrite E. cbn [bind]. intros H. injection H as <- <-. right.
        repeat split; try assumption.
        exists r0, c0. repeat split; assumption.
  - rewrite (move_dispatch_invalid _ _ Hd). cbn [bind].
    intros H. injection H as <- <-. now left.
Qed.

(** X6.  On a size-by-size board [move] returns [True] exactly when the
    board it leaves differs from the board it found, as its docstring says;
    when it returns [False] the whole instance is as before.  The sum of
    the cells grows by the value of the new tile, 2 or 4, when it returns
    [True]: sliding and merging keep the sum. *)
Theorem move_returns_true_iff_board_changed
    (direction : string) (rnd : Draw) (self self' : Game2048) (r : bool) :
  well_formed self = true ->
  move direction rnd self = Ok (r, self') ->
  (r = true <-> board self' <> board self)
  /\ (r = false -> self' = self)
  /\ board_sum (board self')
     = board_sum (board self) + (if r then drawn_value rnd else 0).
Proof.
  intros Hwf Hm. pose proof (proj1 (squareb_spec _ _) Hwf) as Hsq.
  destruct (move_outcome _ _ _ _ _ Hwf Hm)
    as [[-> ->]|(-> & Hd & Hne & r0 & c0 & Hr & Hc & Hz & ->)].
  - split; [|split]; [|reflexivity|lia].
    split; [discriminate|]. intros H. now destruct H.
  - assert (Hsum : board_sum
                     (place (shifted direction (size self) (board self))
                        r0 c0 (drawn_value rnd))
                   = board_sum (board self) + drawn_value rnd).
    { rewrite (board_sum_place (Z.to_nat (size self)));
        try assumption; [|now apply square_shifted].
      rewrite Hz, board_sum_shifted by assumption. lia. }
    cbn [board set_board]. split; [|split]; [|discriminate|exact Hsum].
    split; [|reflexivity]. intros _ Heq. rewrite Heq in Hsum.
    destruct (drawn_value_cases rnd) as [Hv|Hv]; rewrite Hv in Hsum; lia.
Qed.

Lemma move_returns_true_iff_board_changed_witness :
  board sample_midgame_moved <> board sample_midgame
  /\ board_sum (board sample_midgame_moved)
     = board_sum (board sample_midgame) + 2.
Proof.
  destruct (move_returns_true_iff_board_changed "a" (mkDraw 0 false)
              sample_midgame sample_midgame_moved true eq_refl eq_refl)
    as (H1 & _ & H3).
  split; [now apply H1|exact H3].
Defined.

Lemma all_cells_impl (P Q : Z -> bool) (b : Board) :
  (forall x, P x = true -> Q x = true) ->
  all_cells P b = true -> all_cells Q b = true.
Proof.
  intros H. rewrite !all_cells_spec. intros HP row Hrow x Hx.
  apply H. now apply (HP row).
Qed.

Lemma is_tile_nonneg (x : Z) : is_tile x = true -> nonneg x = true.
Proof.
  intros H. unfold nonneg. apply Z.leb_le.
  apply is_tile_spec in H as [->|(k & Hk & ->)]; [lia|].
  apply Z.pow_nonneg. lia.
Qed.

Lemma is_tile_even (x : Z) : is_tile x = true -> (2 | x).
Proof.
  intros H. apply is_tile_spec in H as [->|(k & Hk & ->)].
  - apply Z.divide_0_r.
  - exists (2 ^ (k - 1)). replace k with (k - 1 + 1) at 1 by lia.
    rewrite Z.pow_add_r by lia. lia.
Qed.

Lemma gains_divisible (c : list Z) :
  (forall x, In x c -> is_tile x = true) -> (4 | sumZ (merge_gains c)).
Proof.
  induction c as [| a | a rest IH | a b rest Hab IH] using merge_scan_ind;
    intros H; try apply Z.divide_0_r.
  - rewrite merge_gains_eq. cbn [sumZ fold_right].
    apply Z.divide_add_r.
    + destruct (is_tile_even a) as [q Hq]; [apply H; now left|].
      exists q. lia.
    + apply IH. intros x Hx. apply H. now right; right.
  - rewrite merge_gains_neq by assumption.
    apply IH. intros x Hx. apply H. now right.
Qed.

Lemma board_gain_divisible (b : Board) :
  all_cells is_tile b = true -> (4 | board_gain b).
Proof.
  rewrite all_cells_spec. unfold board_gain.
  induction b as [|row b IH]; intros H; cbn [map sumZ fold_right].
  - apply Z.divide_0_r.
  - apply Z.divide_add_r.
    + apply gains_divisible. intros x Hx. apply filter_In in Hx as [Hx _].
      apply (H row); [now left|exact Hx].
    + apply IH. intros r Hr. apply H. now right.
Qed.

Lemma move_score (direction : string) (rnd : Draw) (self self' : Game2048)
    (r : bool) :
  move direction rnd self = Ok (r, self') ->
  score self' = score self
  \/ score self' = score self + board_gain (orient direction (board self)).
Proof.
  unfold move. destruct (valid_direction direction) eqn:Hd.
  - rewrite (move_dispatch_spec _ _ Hd). cbn [bind].
    destruct (Board_eq_dec _ _) as [_|_].
    + intros H. injection H as _ <-. now right.
    + destruct (add_new_tile rnd _) as [self2| |] eqn:E; try discriminate.
      cbn [bind]. intros H. injection H as _ <-.
      apply add_new_tile_frame in E. apply (f_equal score) in E.
      right. exact E.
  - rewrite (move_dispatch_invalid _ _ Hd). cbn [bind].
    intros H. injection H as _ <-. now left.
Qed.

(** X7.  Whenever [move] returns, on a board of non-negative cells the
    score has not gone down, and on a board of tiles it has grown by a
    multiple of 4: every merge adds twice a tile that is at least 2. *)
Theorem move_never_lowers_score
    (direction : string) (rnd : Draw) (self self' : Game2048) (r : bool) :
  all_cells nonneg (board self) = true ->
  move direction rnd self = Ok (r, self') ->
  score self <= score self'
  /\ (all_cells is_tile (board self) = true ->
      (4 | score self' - score self)).
Proof.
  intros Hnn Hm. destruct (move_score _ _ _ _ _ Hm) as [-> | ->].
  - split; [lia|]. intros _. rewrite Z.sub_diag. apply Z.divide_0_r.
  - destruct (board_gain_zero (orient direction (board self))) as [H0 _];
      [now apply all_cells_orient|].
    split; [lia|]. intros Ht.
    replace (score self + board_gain (orient direction (board self))
             - score self)
      with (board_gain (orient direction (board self))) by lia.
    now apply board_gain_divisible, all_cells_orient.
Qed.

Lemma move_never_lowers_score_witness :
  score sample_midgame <= score sample_midgame_moved
  /\ (4 | score sample_midgame_moved - score sample_midgame).
Proof.
  destruct (move_never_lowers_score "a" (mkDraw 0 false)
              sample_midgame sample_midgame_moved true eq_refl eq_refl)
    as (H1 & H2).
  split; [exact H1|]. apply H2. reflexivity.
Defined.

(** ** [is_game_over] against what [move] can do *)

Lemma at_reverse (n : nat) (b : Board) (r c : nat) :
  square n b -> (r < n)%nat -> (c < n)%nat ->
  at_ (_reverse b) r c = at_ b r (n - 1 - c).
Proof.
  intros [Hl Hr] Hrn Hcn. unfold at_, _reverse.
  rewrite (nth_row_map (@rev Z)) by reflexivity.
  assert (Hlen : length (nth r b []) = n) by (apply Hr, nth_In; lia).
  rewrite rev_nth by lia. f_equal. lia.
Qed.

Lemma at_transpose_square (n : nat) (b : Board) (r c : nat) :
  square n b -> (r < n)%nat -> (c < n)%nat ->
  at_ (_transpose b) r c = at_ b c r.
Proof.
  intros Hsq Hrn Hcn. apply at_transpose.
  - now rewrite (square_shortest _ _ Hsq).
  - destruct Hsq as [Hl _]. lia.
Qed.

Lemma valid_direction_cases (direction : string) :
  valid_direction direction = true ->
  direction = "w"%string \/ direction = "s"%string
  \/ direction = "a"%string \/ direction = "d"%string.
Proof.
  unfold valid_direction. rewrite !orb_true_iff, !String.eqb_eq. tauto.
Qed.

(** The cells of the board [_move_left] is run on, in terms of the cells of
    the board itself. *)
Lemma at_orient (direction : string) (n : nat) (b : Board) (r c : nat) :
  valid_direction direction = true ->
  square n b -> (r < n)%nat -> (c < n)%nat ->
  at_ (orient direction b) r c
  = if String.eqb direction "w" then at_ b c r
    else if String.eqb direction "s" then at_ b (n - 1 - c) r
    else if String.eqb direction "a" then at_ b r c
    else at_ b r (n - 1 - c).
Proof.
  intros Hd Hsq Hr Hc. unfold orient.
  destruct (String.eqb direction "w"); [now apply (at_transpose_square n)|].
  destruct (String.eqb direction "s").
  { rewrite (at_reverse n) by (try apply square_transpose; assumption).
    apply (at_transpose_square n); (assumption || lia). }
  destruct (String.eqb direction "a"); [reflexivity|].
  now apply (at_reverse n).
Qed.

Lemma no_gain_of_distinct (row : list Z) :
  (forall c, (c + 1 < length row)%nat -> nth c row 0 <> nth (c + 1) row 0) ->
  merge_gains row = [].
Proof.
  induction row as [| a | a rest IH | a b rest Hab IH] using merge_scan_ind;
    intros H; try reflexivity.
  - exfalso. apply (H 0%nat); simpl; [lia|reflexivity].
  - rewrite merge_gains_neq by assumption. apply IH. intros c Hc.
    apply (H (S c)). simpl in *. lia.
Qed.

Lemma distinct_of_no_gain (row : list Z) :
  merge_gains row = [] ->
  forall c, (c + 1 < length row)%nat -> nth c row 0 <> nth (c + 1) row 0.
Proof.
  induction row as [| a | a rest IH | a b rest Hab IH] using merge_scan_ind;
    intros H c Hc; simpl in Hc; try lia.
  - rewrite merge_gains_eq in H. discriminate.
  - rewrite merge_gains_neq in H by assumption.
    destruct c as [|c]; [exact Hab|]. apply (IH H c). simpl. lia.
Qed.

Lemma reduce_row_settled_row (s : Z) (row : list Z) :
  length row = Z.to_nat s ->
  forallb nonzero row = true ->
  merge_gains row = [] ->
  reduce_row s row = row.
Proof.
  intros Hlen Hnz Hg. unfold reduce_row, pad.
  rewrite (compress_nonzero _ Hnz), (merge_pairs_no_gain _ Hg).
  replace (Z.to_nat (s - Z.of_nat (length row))) with 0%nat by lia.
  apply app_nil_r.
Qed.

Lemma nth_row_at (b : Board) (row : list Z) :
  In row b -> exists r, (r < length b)%nat /\ forall c, nth c row 0 = at_ b r c.
Proof.
  intros Hrow. destruct (In_nth _ _ [] Hrow) as (r & Hr & E).
  exists r. split; [exact Hr|]. intros c. unfold at_. now rewrite E.
Qed.

(** A board whose lines, in the orientation of a move, are full and have no
    two equal neighbours is left as it is by [_move_left]. *)
Lemma settled_rows_fixed (s : Z) (O : Board) :
  square (Z.to_nat s) O ->
  (forall r c, (r < Z.to_nat s)%nat -> (c < Z.to_nat s)%nat ->
     at_ O r c <> 0
     /\ ((c + 1 < Z.to_nat s)%nat -> at_ O r c <> at_ O r (c + 1))) ->
  map (reduce_row s) O = O.
Proof.
  intros [Hl Hr] H. rewrite <- (map_id O) at 2. apply map_ext_in.
  intros row Hrow. destruct (nth_row_at _ _ Hrow) as (r & Hrlt & Hat).
  pose proof (Hr row Hrow) as Hlen. apply reduce_row_settled_row.
  - exact Hlen.
  - apply forallb_forall. intros x Hx.
    destruct (In_nth _ _ 0 Hx) as (c & Hc & <-). rewrite Hat.
    unfold nonzero. apply negb_true_iff, Z.eqb_neq. apply H; lia.
  - apply no_gain_of_distinct. intros c Hc. rewrite !Hat. apply H; lia.
Qed.

Lemma game_over_board_fixed (direction : string) (s : Z) (b : Board) :
  valid_direction direction = true ->
  square (Z.to_nat s) b ->
  full (Z.to_nat s) b ->
  no_equal_neighbours (Z.to_nat s) b ->
  shifted direction s b = b.
Proof.
  intros Hd Hsq Hfull Hne. unfold shifted.
  rewrite settled_rows_fixed.
  - now apply (unorient_orient _ (Z.to_nat s)).
  - now apply square_orient.
  - intros r c Hr Hc. set (n := Z.to_nat s) in *.
    rewrite (at_orient _ n) by assumption.
    split.
    + repeat match goal with |- context [String.eqb ?a ?b] =>
                               destruct (String.eqb a b) end;
        apply Hfull; lia.
    + intros Hc1. rewrite (at_orient _ n) by (assumption || lia).
      repeat match goal with |- context [String.eqb ?a ?b] =>
                               destruct (String.eqb a b) end.
      * apply (Hne c r); lia.
      * replace (n - 1 - c)%nat with (n - 1 - (c + 1) + 1)%nat by lia.
        intros E. symmetry in E. revert E.
        apply (Hne (n - 1 - (c + 1))%nat r); lia.
      * apply (Hne r c); lia.
      * replace (n - 1 - c)%nat with (n - 1 - (c + 1) + 1)%nat by lia.
        intros E. symmetry in E. revert E.
        apply (Hne r (n - 1 - (c + 1))%nat); lia.
Qed.

Lemma game_over_no_move (direction : string) (rnd : Draw) (self : Game2048) :
  well_formed self = true ->
  is_game_over self = Ok true ->
  move direction rnd self = Ok (false, self).
Proof.
  intros Hwf Hover. pose proof (proj1 (squareb_spec _ _) Hwf) as Hsq.
  rewrite (is_game_over_spec _ Hwf) in Hover. injection Hover as Hover.
  apply andb_prop in Hover as [He Hp].
  apply negb_true_iff in He, Hp.
  apply has_empty_false in He. apply has_equal_pair_false in Hp.
  unfold move. destruct (valid_direction direction) eqn:Hd.
  - rewrite (move_dispatch_spec _ _ Hd). cbn [bind].
    pose proof (game_over_board_fixed _ _ _ Hd Hsq He Hp) as Hfix.
    destruct (shifted_fixed_no_gain direction (size self) (win_value self)
                (board self) Hfix) as [-> ->].
    rewrite scored_zero, Hfix.
    replace (set_board self (board self)) with self by now destruct self.
    destruct (Board_eq_dec _ _); congruence.
  - now rewrite (move_dispatch_invalid _ _ Hd).
Qed.

(** X8.  When [is_game_over] answers [True] on a size-by-size board, no
    call of [move] changes anything: for every direction and every draw
    [move] returns [False] and the instance stays as it is. *)
Theorem game_over_means_no_move_is_left
    (direction : string) (rnd : Draw) (self : Game2048) :
  well_formed self = true ->
  is_game_over self = Ok true ->
  move direction rnd self = Ok (false, self).
Proof. apply game_over_no_move. Qed.

Lemma game_over_means_no_move_is_left_witness :
  move "w" (mkDraw 1 true) sample_stuck = Ok (false, sample_stuck).
Proof.
  apply (game_over_means_no_move_is_left "w" (mkDraw 1 true) sample_stuck);
    reflexivity.
Defined.

Lemma fixed_row_lines (s : Z) (row : list Z) :
  length row = Z.to_nat s ->
  reduce_row s row = row ->
  forall c, (c + 1 < length row)%nat ->
    (nth c row 0 = 0 -> nth (c + 1) row 0 = 0)
    /\ (nth (c + 1) row 0 <> 0 -> nth c row 0 <> nth (c + 1) row 0).
Proof.
  intros Hlen Hfix.
  assert (Hg : merge_gains (compress row) = [])
    by (apply (no_merge_of_count s); rewrite Hfix; lia).
  pose proof (nonzero_compress row) as Hnz.
  unfold reduce_row, pad in Hfix. rewrite (merge_pairs_no_gain _ Hg) in Hfix.
  revert Hg Hnz Hfix. generalize (compress row) as cr.
  intros cr Hg Hnz Hfix c Hc.
  set (k := Z.to_nat (s - Z.of_nat (length cr))) in *.
  assert (Hnth : forall i, (i < length cr)%nat -> nth i row 0 <> 0).
  { intros i Hi. rewrite <- Hfix, app_nth1 by exact Hi.
    rewrite forallb_forall in Hnz.
    specialize (Hnz (nth i cr 0) (nth_In _ _ Hi)).
    unfold nonzero in Hnz. now apply negb_true_iff, Z.eqb_neq in Hnz. }
  assert (Hzero : forall i, (length cr <= i)%nat -> nth i row 0 = 0).
  { intros i Hi. rewrite <- Hfix, app_nth2 by exact Hi. apply nth_repeat. }
  split.
  - intros Hz. apply Hzero.
    destruct (Nat.lt_ge_cases c (length cr)) as [Hlt|Hge]; [|lia].
    now destruct (Hnth c Hlt).
  - intros Hn.
    destruct (Nat.lt_ge_cases (c + 1) (length cr)) as [Hlt|Hge];
      [|now destruct Hn; apply Hzero].
    rewrite <- Hfix, !app_nth1 by lia.
    now apply distinct_of_no_gain.
Qed.

Lemma fixed_board_lines (direction : string) (s : Z) (b : Board) (r c : nat) :
  square (Z.to_nat s) b ->
  shifted direction s b = b ->
  (r < Z.to_nat s)%nat -> (c + 1 < Z.to_nat s)%nat ->
  (at_ (orient direction b) r c = 0 -> at_ (orient direction b) r (c + 1) = 0)
  /\ (at_ (orient direction b) r (c + 1) <> 0 ->
      at_ (orient direction b) r c <> at_ (orient direction b) r (c + 1)).
Proof.
  intros Hsq Hfix Hr Hc.
  pose proof (square_orient direction _ _ Hsq) as HsqO.
  assert (HO : map (reduce_row s) (orient direction b) = orient direction b).
  { apply (f_equal (orient direction)) in Hfix. unfold shifted in Hfix.
    now rewrite (orient_unorient _ (Z.to_nat s)) in Hfix
      by now apply square_reduce. }
  destruct HsqO as [Hl Hrow].
  assert (Hin : In (nth r (orient direction b) []) (orient direction b))
    by (apply nth_In; lia).
  unfold at_. apply (fixed_row_lines s).
  - now apply Hrow.
  - exact (map_fixed _ _ HO _ Hin).
  - rewrite (Hrow _ Hin). exact Hc.
Qed.

Lemma zero_spreads (n : nat) (f : nat -> Z) :
  (forall c, (c + 1 < n)%nat -> f c = 0 -> f (c + 1)%nat = 0) ->
  (forall c, (c + 1 < n)%nat -> f (c + 1)%nat = 0 -> f c = 0) ->
  forall c c', (c < n)%nat -> (c' < n)%nat -> f c = 0 -> f c' = 0.
Proof.
  intros Hup Hdown c c' Hc Hc' Hz.
  assert (H0 : f 0%nat = 0).
  { clear Hc' c'. induction c as [|c IH]; [exact Hz|].
    apply IH; [lia|]. apply Hdown; [lia|].
    now replace (c + 1)%nat with (S c) by lia. }
  clear Hz Hc c. induction c' as [|c' IH]; [exact H0|].
  replace (S c') with (c' + 1)%nat by lia. apply Hup; [lia|]. apply IH. lia.
Qed.

Lemma has_tile_cell (n : nat) (b : Board) :
  square n b -> has_tile b = true ->
  exists r c, (r < n)%nat /\ (c < n)%nat /\ at_ b r c <> 0.
Proof.
  intros Hsq H. unfold has_tile in H.
  apply existsb_exists in H as (row & Hrow & H).
  apply existsb_exists in H as (x & Hx & Hnz).
  destruct (square_cell_of_In n b x Hsq) as (r & c & Hr & Hc & E).
  { apply in_concat. eauto. }
  exists r, c. repeat split; try assumption. rewrite E.
  unfold nonzero in Hnz. now apply negb_true_iff, Z.eqb_neq in Hnz.
Qed.

Lemma stuck_board_is_over (s : Z) (b : Board) :
  square (Z.to_nat s) b ->
  has_tile b = true ->
  (forall direction, valid_direction direction = true ->
     shifted direction s b = b) ->
  full (Z.to_nat s) b /\ no_equal_neighbours (Z.to_nat s) b.
Proof.
  intros Hsq Htile Hfix. set (n := Z.to_nat s) in *.
  assert (Ha : forall r c, (r < n)%nat -> (c + 1 < n)%nat ->
             (at_ b r c = 0 -> at_ b r (c + 1) = 0)
             /\ (at_ b r (c + 1) <> 0 -> at_ b r c <> at_ b r (c + 1))).
  { intros r c Hr Hc.
    pose proof (fixed_board_lines "a" s b r c Hsq (Hfix "a"%string eq_refl)
                  Hr Hc) as H.
    rewrite !(at_orient "a" n) in H by (reflexivity || assumption || lia).
    exact H. }
  assert (Hd : forall r c, (r < n)%nat -> (c + 1 < n)%nat ->
             at_ b r (c + 1) = 0 -> at_ b r c = 0).
  { intros r c Hr Hc.
    pose proof (fixed_board_lines "d" s b r (n - 1 - (c + 1)) Hsq
                  (Hfix "d"%string eq_refl) Hr) as H.
    rewrite !(at_orient "d" n) in H by (reflexivity || assumption || lia).
    cbn [String.eqb Ascii.eqb Bool.eqb] in H.
    replace (n - 1 - (n - 1 - (c + 1)))%nat with (c + 1)%nat in H by lia.
    replace (n - 1 - (n - 1 - (c + 1) + 1))%nat with c in H by lia.
    apply H. lia. }
  assert (Hw : forall r c, (r + 1 < n)%nat -> (c < n)%nat ->
             (at_ b r c = 0 -> at_ b (r + 1) c = 0)
             /\ (at_ b (r + 1) c <> 0 -> at_ b r c <> at_ b (r + 1) c)).
  { intros r c Hr Hc.
    pose proof (fixed_board_lines "w" s b c r Hsq (Hfix "w"%string eq_refl)
                  Hc Hr) as H.
    rewrite !(at_orient "w" n) in H by (reflexivity || assumption || lia).
    exact H. }
  assert (Hs : forall r c, (r + 1 < n)%nat -> (c < n)%nat ->
             at_ b (r + 1) c = 0 -> at_ b r c = 0).
  { intros r c Hr Hc.
    pose proof (fixed_board_lines "s" s b c (n - 1 - (r + 1)) Hsq
                  (Hfix "s"%string eq_refl) Hc) as H.
    rewrite !(at_orient "s" n) in H by (reflexivity || assumption || lia).
    cbn [String.eqb Ascii.eqb Bool.eqb] in H.
    replace (n - 1 - (n - 1 - (r + 1)))%nat with (r + 1)%nat in H by lia.
    replace (n - 1 - (n - 1 - (r + 1) + 1))%nat with r in H by lia.
    apply H. lia. }
  destruct (has_tile_cell n b Hsq Htile) as (r0 & c0 & Hr0 & Hc0 & Hnz).
  assert (Hfull : full n b).
  { intros r c Hr Hc Hz. apply Hnz.
    assert (Hrow : at_ b r c0 = 0).
    { apply (zero_spreads n (fun j => at_ b r j)) with (c := c);
        try assumption.
      - intros j Hj. now apply Ha.
      - intros j Hj. now apply Hd. }
    apply (zero_spreads n (fun i => at_ b i c0)) with (c := r);
      try assumption.
    - intros i Hi. now apply Hw.
    - intros i Hi. now apply Hs. }
  split; [exact Hfull|]. intros r c Hr Hc. split; intros Hlt.
  - apply Ha; try assumption. apply Hfull; lia.
  - apply Hw; try assumption. apply Hfull; lia.
Qed.

Lemma move_false_fixed (direction : string) (rnd : Draw) (self self' : Game2048) :
  valid_direction direction = true ->
  move direction rnd self = Ok (false, self') ->
  shifted direction (size self) (board self) = board self.
Proof.
  intros Hd. unfold move. rewrite (move_dispatch_spec _ _ Hd). cbn [bind].
  destruct (Board_eq_dec _ _) as [Heq|_]; [intros _; exact Heq|].
  destruct (add_new_tile rnd _); discriminate.
Qed.

Lemma stuck_means_over (rnd : Draw) (self : Game2048) :
  well_formed self = true ->
  has_tile (board self) = true ->
  (forall direction, valid_direction direction = true ->
     exists self', move direction rnd self = Ok (false, self')) ->
  is_game_over self = Ok true.
Proof.
  intros Hwf Htile Hstuck.
  pose proof (proj1 (squareb_spec _ _) Hwf) as Hsq.
  destruct (stuck_board_is_over (size self) (board self) Hsq Htile)
    as [Hfull Hne].
  { intros direction Hd. destruct (Hstuck direction Hd) as (self' & E).
    exact (move_false_fixed _ _ _ _ Hd E). }
  rewrite (is_game_over_spec _ Hwf).
  apply has_empty_false in Hfull. apply has_equal_pair_false in Hne.
  now rewrite Hfull, Hne.
Qed.

(** X9.  The other way round: on a size-by-size board that holds at least
    one tile, if [move] returns [False] in each of the four directions then
    [is_game_over] answers [True].  So a player who has a tile on the board
    and cannot move is told that the game is over. *)
Theorem no_move_left_means_game_over (rnd : Draw) (self : Game2048) :
  well_formed self = true ->
  has_tile (board self) = true ->
  (forall direction, valid_direction direction = true ->
     exists self', move direction rnd self = Ok (false, self')) ->
  is_game_over self = Ok true.
Proof. apply stuck_means_over. Qed.

Lemma no_move_left_means_game_over_witness :
  is_game_over sample_stuck = Ok true.
Proof.
  apply (no_move_left_means_game_over (mkDraw 0 false) sample_stuck);
    try reflexivity.
  intros direction Hd. exists sample_stuck.
  destruct (valid_direction_cases direction Hd) as [->|[->|[->| ->]]];
    reflexivity.
Defined.

(** ** A new game *)

Lemma count_empty_zeros (n m : nat) :
  count_empty (repeat (repeat 0 m) n) = (n * m)%nat.
Proof.
  unfold count_empty. induction n as [|n IH]; simpl; [reflexivity|].
  rewrite filter_app, length_app, IH. f_equal.
  clear IH. induction m as [|m IHm]; simpl; [reflexivity|]. now rewrite IHm.
Qed.

Lemma board_sum_zeros (n m : nat) : board_sum (repeat (repeat 0 m) n) = 0.
Proof.
  unfold board_sum. induction n as [|n IH]; simpl in *; [reflexivity|].
  rewrite sumZ_zeros. lia.
Qed.

Lemma add_new_tile_size (rnd : Draw) (self self' : Game2048) :
  add_new_tile rnd self = Ok self' ->
  size self' = size self /\ score self' = score self
  /\ win_value self' = win_value self /\ game_won self' = game_won self.
Proof.
  intros E. apply add_new_tile_frame in E. rewrite <- E. now repeat split.
Qed.

Lemma new_game_accounting (size : Z) (rnd1 rnd2 : Draw) (g : Game2048) :
  2 <= size ->
  __init__ size rnd1 rnd2 = Ok g ->
  (count_empty (board g) + 2 = Z.to_nat size * Z.to_nat size)%nat
  /\ board_sum (board g) = drawn_value rnd1 + drawn_value rnd2.
Proof.
  intros Hsize. unfold __init__.
  set (g0 := mkGame size _ 0 2048 false).
  assert (Hwf0 : well_formed g0 = true) by apply squareb_zeros.
  destruct (add_new_tile rnd1 g0) as [g1| |] eqn:E1; try discriminate.
  cbn [bind]. intros E2.
  destruct (add_new_tile_keeps (fun _ => true) rnd1 g0)
    as (g1' & E1' & Hwf1 & _); try reflexivity; try assumption.
  { apply all_cells_spec. reflexivity. }
  rewrite E1 in E1'. injection E1' as <-.
  destruct (add_new_tile_accounting _ _ _ Hwf0 E1) as [_ H1].
  destruct (add_new_tile_accounting _ _ _ Hwf1 E2) as [_ H2].
  assert (Hc0 : count_empty (board g0) = (Z.to_nat size * Z.to_nat size)%nat)
    by apply count_empty_zeros.
  assert (Hs0 : board_sum (board g0) = 0) by apply board_sum_zeros.
  assert (Hn : (2 <= Z.to_nat size)%nat) by lia.
  destruct H1 as [Hc1 Hs1]; [nia|]. destruct H2 as [Hc2 Hs2]; [nia|].
  split; [lia|lia].
Qed.

(** X10.  A new game of size at least 2 is a size-by-size board of tiles
    with exactly two non-empty cells, each 2 or 4 by its own draw; the score
    is 0, the win flag is down and the game is not over. *)
Theorem new_game_has_two_tiles (size : Z) (rnd1 rnd2 : Draw) :
  2 <= size ->
  exists g,
    __init__ size rnd1 rnd2 = Ok g
    /\ well_formed g = true
    /\ all_cells is_tile (board g) = true
    /\ (count_empty (board g) + 2 = Z.to_nat size * Z.to_nat size)%nat
    /\ board_sum (board g) = drawn_value rnd1 + drawn_value rnd2
    /\ score g = 0 /\ game_won g = false
    /\ is_game_over g = Ok false.
Proof.
  intros Hsize.
  destruct (init_keeps is_tile size rnd1 rnd2)
    as (g & E & Hwf & Ht & Hsc & _ & Hw); try reflexivity.
  destruct (new_game_accounting _ _ _ _ Hsize E) as [Hc Hs].
  exists g. repeat split; try assumption.
  apply is_game_over_with_empty; [exact Hwf|].
  assert (Hn : (2 <= Z.to_nat size)%nat) by lia. nia.
Qed.

Lemma new_game_has_two_tiles_witness :
  exists g,
    __init__ 4 (mkDraw 5 false) (mkDraw 9 true) = Ok g
    /\ (count_empty (board g) + 2 = 16)%nat
    /\ board_sum (board g) = 6
    /\ is_game_over g = Ok false.
Proof.
  destruct (new_game_has_two_tiles 4 (mkDraw 5 false) (mkDraw 9 true))
    as (g & E & _ & _ & Hc & Hs & _ & _ & Ho); [lia|].
  exists g. repeat split; assumption.
Defined.

Lemma add_new_tile_no_rows (rnd : Draw) (n sc win : Z) (won : bool) :
  n <= 0 ->
  add_new_tile rnd (mkGame n [] sc win won) = Ok (mkGame n [] sc win won).
Proof.
  intros Hn. unfold add_new_tile, collect_empty_cells, range. cbn [size].
  now replace (Z.to_nat n) with 0%nat by lia.
Qed.

(** X11.  The small sizes.  With a size of 0 or less the board of a new
    game has no row, both calls of [add_new_tile] do nothing and the game is
    over at once.  With size 1 the first tile fills the only cell, the
    second call finds no empty cell, and the game is over at once as
    well. *)
Theorem new_game_of_small_size (n : Z) (rnd1 rnd2 : Draw) :
  (n <= 0 ->
   __init__ n rnd1 rnd2 = Ok (mkGame n [] 0 2048 false)
   /\ is_game_over (mkGame n [] 0 2048 false) = Ok true)
  /\ (n = 1 ->
      __init__ n rnd1 rnd2
      = Ok (mkGame 1 [[drawn_value rnd1]] 0 2048 false)
      /\ is_game_over (mkGame 1 [[drawn_value rnd1]] 0 2048 false) = Ok true).
Proof.
  split.
  - intros Hn. split.
    + unfold __init__. replace (Z.to_nat n) with 0%nat by lia.
      cbn [repeat]. rewrite add_new_tile_no_rows by exact Hn. cbn [bind].
      now apply add_new_tile_no_rows.
    + unfold is_game_over, range. cbn [size].
      now replace (Z.to_nat n) with 0%nat by lia.
  - intros ->. unfold __init__. cbv zeta.
    change (Z.to_nat 1) with 1%nat. cbn [repeat].
    set (g0 := mkGame 1 [[0]] 0 2048 false).
    destruct (add_new_tile_spec rnd1 g0 eq_refl)
      as [[Hfull _]|(r & c & Hr & Hc & _ & E)]; [discriminate|].
    cbn [size g0 Z.to_nat Pos.to_nat Pos.iter_op] in Hr, Hc.
    assert (r = 0%nat) by lia. assert (c = 0%nat) by lia. subst r c.
    rewrite E. cbn [bind].
    change (set_board g0 (place (board g0) 0 0 (drawn_value rnd1)))
      with (mkGame 1 [[drawn_value rnd1]] 0 2048 false).
    set (g1 := mkGame 1 [[drawn_value rnd1]] 0 2048 false).
    assert (Hover : is_game_over g1 = Ok true).
    { rewrite is_game_over_spec by reflexivity. unfold g1.
      destruct (drawn_value_cases rnd1) as [-> | ->]; reflexivity. }
    split; [|exact Hover].
    clear Hr Hc.
    destruct (add_new_tile_spec rnd2 g1 eq_refl)
      as [[_ E1]|(r & c & Hr & Hc & Hz & _)]; [exact E1|].
    cbn [size g1 Z.to_nat Pos.to_nat Pos.iter_op] in Hr, Hc.
    assert (r = 0%nat) by lia. assert (c = 0%nat) by lia. subst r c.
    unfold g1, at_ in Hz. simpl in Hz.
    destruct (drawn_value_cases rnd1) as [Hv|Hv]; rewrite Hv in Hz;
      discriminate.
Qed.

Lemma new_game_of_small_size_witness :
  __init__ 0 (mkDraw 0 false) (mkDraw 0 false)
  = Ok (mkGame 0 [] 0 2048 false)
  /\ __init__ 1 (mkDraw 3 true) (mkDraw 0 false)
     = Ok (mkGame 1 [[4]] 0 2048 false)
  /\ is_game_over (mkGame 1 [[4]] 0 2048 false) = Ok true.
Proof.
  split.
  - apply (proj1 (new_game_of_small_size 0 (mkDraw 0 false) (mkDraw 0 false))).
    lia.
  - apply (proj2 (new_game_of_small_size 1 (mkDraw 3 true) (mkDraw 0 false))).
    reflexivity.
Defined.

(** ** The states a game goes through *)

Lemma move_score_exact (direction : string) (rnd : Draw)
    (self self' : Game2048) (r : bool) :
  move direction rnd self = Ok (r, self') ->
  size self' = size self
  /\ score self'
     = score self
       + (if valid_direction direction
          then board_gain (orient direction (board self)) else 0).
Proof.
  unfold move. destruct (valid_direction direction) eqn:Hd.
  - rewrite (move_dispatch_spec _ _ Hd). cbn [bind].
    destruct (Board_eq_dec _ _) as [_|_].
    + intros H. injection H as _ <-. now split.
    + destruct (add_new_tile rnd _) as [self2| |] eqn:E; try discriminate.
      cbn [bind]. intros H. injection H as _ <-.
      apply add_new_tile_size in E as (Hsz & Hsc & _).
      rewrite Hsz, Hsc. now split.
  - rewrite (move_dispatch_invalid _ _ Hd). cbn [bind].
    intros H. injection H as _ <-. split; [reflexivity|lia].
Qed.

Lemma gains_members_positive (c : list Z) :
  (forall x, In x c -> 0 < x) -> forall g, In g (merge_gains c) -> 0 < g.
Proof.
  induction c as [| a | a rest IH | a b rest Hab IH] using merge_scan_ind;
    intros H g Hg; try (now destruct Hg).
  - rewrite merge_gains_eq in Hg. destruct Hg as [<-|Hg].
    + assert (0 < a) by (apply H; now left). lia.
    + apply IH; [|exact Hg]. intros x Hx. apply H. now right; right.
  - rewrite merge_gains_neq in Hg by assumption.
    apply IH; [|exact Hg]. intros x Hx. apply H. now right.
Qed.

Lemma In_le_sumZ (l : list Z) (x : Z) :
  (forall y, In y l -> 0 <= y) -> In x l -> x <= sumZ l.
Proof.
  induction l as [|a l IH]; intros H Hx; [destruct Hx|].
  cbn [sumZ fold_right]. fold (sumZ l).
  assert (0 <= a) by (apply H; now left).
  assert (0 <= sumZ l).
  { clear IH Hx. induction l as [|b l IHl]; simpl; [lia|].
    assert (0 <= b) by (apply H; now right; left).
    assert (0 <= sumZ l) by (apply IHl; intros y [Hy|Hy]; apply H;
                             [now left|now right; right]).
    unfold sumZ in *. lia. }
  destruct Hx as [->|Hx]; [lia|].
  specialize (IH (fun y Hy => H y (or_intror Hy)) Hx). lia.
Qed.

Lemma row_hit_le (win : Z) (row : list Z) :
  forallb nonneg row = true -> row_hit win row = true -> win <= row_gain row.
Proof.
  intros Hnn Hhit. unfold row_hit in Hhit.
  apply existsb_exists in Hhit as (v & Hv & E). apply Z.eqb_eq in E. subst v.
  assert (Hpos : forall x, In x (compress row) -> 0 < x).
  { intros x Hx. apply filter_In in Hx as [Hx Hnz].
    rewrite forallb_forall in Hnn. specialize (Hnn x Hx).
    unfold nonneg in Hnn. apply Z.leb_le in Hnn.
    unfold nonzero in Hnz. apply negb_true_iff, Z.eqb_neq in Hnz. lia. }
  apply In_le_sumZ; [|exact Hv].
  intros y Hy. pose proof (gains_members_positive _ Hpos y Hy). lia.
Qed.

Lemma board_hit_le (win : Z) (b : Board) :
  all_cells nonneg b = true -> board_hit win b = true -> win <= board_gain b.
Proof.
  unfold all_cells, board_hit, board_gain.
  induction b as [|row b IH]; cbn [forallb existsb map sumZ fold_right];
    intros Hnn Hhit; [discriminate|].
  apply andb_prop in Hnn as [Hr Hb]. fold (sumZ (map row_gain b)).
  destruct (row_gain_zero row Hr) as [Hr0 _].
  destruct (board_gain_zero b Hb) as [Hb0 _]. unfold board_gain in Hb0.
  apply orb_prop in Hhit as [Hhit|Hhit].
  - pose proof (row_hit_le _ _ Hr Hhit). lia.
  - specialize (IH Hb Hhit). lia.
Qed.

Lemma has_tile_of_sum (b : Board) : 0 < board_sum b -> has_tile b = true.
Proof.
  intros H. apply not_false_is_true. intros Hf.
  assert (E : board_sum b = 0); [|lia]. clear H.
  unfold has_tile, board_sum in *.
  induction b as [|row b IH]; [reflexivity|].
  cbn [existsb map sumZ fold_right] in *.
  apply orb_false_elim in Hf as [Hrow Hb]. fold (sumZ (map sumZ b)).
  rewrite (IH Hb).
  assert (Hz : sumZ row = 0); [|lia].
  clear IH Hb. induction row as [|x row IHr]; [reflexivity|].
  cbn [existsb sumZ fold_right] in *.
  apply orb_false_elim in Hrow as [Hx Hrow]. fold (sumZ row).
  rewrite (IHr Hrow). unfold nonzero in Hx.
  apply negb_false_iff, Z.eqb_eq in Hx. lia.
Qed.

Lemma init_size (n : Z) (rnd1 rnd2 : Draw) (g : Game2048) :
  __init__ n rnd1 rnd2 = Ok g -> size g = n.
Proof.
  unfold __init__. cbv zeta.
  destruct (add_new_tile rnd1 _) as [g1| |] eqn:E1; try discriminate.
  cbn [bind]. intros E2.
  apply add_new_tile_size in E1 as (H1 & _).
  apply add_new_tile_size in E2 as (H2 & _).
  now rewrite H2, H1.
Qed.

Lemma invariant_new (n : Z) (rnd1 rnd2 : Draw) (g : Game2048) :
  __init__ n rnd1 rnd2 = Ok g -> game_invariant n g.
Proof.
  intros E.
  destruct (init_keeps is_tile n rnd1 rnd2)
    as (g' & E' & Hwf & Ht & Hsc & Hw & Hf); try reflexivity.
  rewrite E in E'. injection E' as <-.
  unfold game_invariant. rewrite Hsc, Hf.
  repeat split; try assumption; try lia.
  - now apply (init_size _ rnd1 rnd2).
  - apply Z.divide_0_r.
  - intros Hn. destruct (new_game_accounting _ _ _ _ Hn E) as [_ ->].
    destruct (drawn_value_cases rnd1) as [-> | ->];
      destruct (drawn_value_cases rnd2) as [-> | ->]; lia.
Qed.

Lemma invariant_add (n : Z) (rnd : Draw) (g g' : Game2048) :
  game_invariant n g -> add_new_tile rnd g = Ok g' -> game_invariant n g'.
Proof.
  intros (Hsz & Hwf & Ht & Hw & Hs0 & Hs4 & Hflag & Hsum) E.
  destruct (add_new_tile_keeps is_tile rnd g)
    as (g1 & E1 & Hwf' & Ht' & _); try reflexivity; try assumption.
  rewrite E in E1. injection E1 as <-.
  destruct (add_new_tile_size _ _ _ E) as (Esz & Esc & Ew & Ef).
  destruct (add_new_tile_accounting _ _ _ Hwf E) as [H0 H1].
  unfold game_invariant. rewrite Esz, Esc, Ew, Ef.
  repeat split; try assumption.
  intros Hn. specialize (Hsum Hn).
  destruct (count_empty (board g)) as [|k] eqn:Hc.
  - now rewrite (H0 eq_refl).
  - destruct H1 as [_ ->]; [lia|].
    destruct (drawn_value_cases rnd) as [-> | ->]; lia.
Qed.

Lemma invariant_move (n : Z) (direction : string) (rnd : Draw)
    (g g' : Game2048) (r : bool) :
  game_invariant n g -> move direction rnd g = Ok (r, g') ->
  game_invariant n g'.
Proof.
  intros (Hsz & Hwf & Ht & Hw & Hs0 & Hs4 & Hflag & Hsum) E.
  destruct (move_keeps is_tile direction rnd g)
    as (r1 & g1 & E1 & Hwf' & Ht'); try reflexivity; try assumption.
  { exact is_tile_double. }
  rewrite E in E1. injection E1 as <- <-.
  destruct (move_score_exact _ _ _ _ _ E) as [Esz Esc].
  destruct (move_flag _ _ _ _ _ E) as [Ew Ef].
  pose proof (all_cells_impl _ _ _ is_tile_nonneg Ht) as Hnn.
  pose proof (all_cells_orient nonneg direction _ Hnn) as HnnO.
  pose proof (all_cells_orient is_tile direction _ Ht) as HtO.
  destruct (board_gain_zero _ HnnO) as [Hg0 _].
  pose proof (board_gain_divisible _ HtO) as Hg4.
  unfold game_invariant. rewrite Esz, Esc, Ew, Ef.
  repeat split; try assumption.
  - destruct (valid_direction direction); lia.
  - destruct (valid_direction direction).
    + now apply Z.divide_add_r.
    + now rewrite Z.add_0_r.
  - intros Hwon. apply orb_prop in Hwon as [Hwon|Hwon].
    + specialize (Hflag Hwon). destruct (valid_direction direction); lia.
    + apply andb_prop in Hwon as [-> Hhit]. rewrite Hw in Hhit.
      pose proof (board_hit_le _ _ HnnO Hhit). lia.
  - intros Hn. specialize (Hsum Hn).
    destruct (move_outcome _ _ _ _ _ Hwf E)
      as [[_ ->]|(_ & _ & _ & r0 & c0 & Hr0 & Hc0 & Hz & ->)];
      [exact Hsum|].
    cbn [board set_board].
    rewrite (board_sum_place (Z.to_nat (size g)));
      try assumption;
      [|apply square_shifted; now apply squareb_spec].
    rewrite Hz, board_sum_shifted by now apply squareb_spec.
    destruct (drawn_value_cases rnd) as [-> | ->]; lia.
Qed.

Lemma reachable_invariant (n : Z) (g : Game2048) :
  reachable n g -> game_invariant n g.
Proof.
  induction 1 as [rnd1 rnd2 g E|direction rnd g g' r _ IH E|rnd g g' _ IH E].
  - exact (invariant_new _ _ _ _ E).
  - exact (invariant_move _ _ _ _ _ _ IH E).
  - exact (invariant_add _ _ _ _ IH E).
Qed.

(** X12.  Every state of a game, from [__init__] through any calls of
    [move] and [add_new_tile], keeps its size, has a size-by-size board of
    tiles and the win value 2048; its score is a non-negative multiple of 4
    and is at least 2048 once the win flag is up; and for a size of at
    least 2 the tiles add up to at least 4, so the board is never empty. *)
Theorem reachable_states_keep_invariant (n : Z) (g : Game2048) :
  reachable n g ->
  size g = n
  /\ well_formed g = true
  /\ all_cells is_tile (board g) = true
  /\ win_value g = 2048
  /\ 0 <= score g
  /\ (4 | score g)
  /\ (game_won g = true -> 2048 <= score g)
  /\ (2 <= n -> 4 <= board_sum (board g) /\ has_tile (board g) = true).
Proof.
  intros H. destruct (reachable_invariant _ _ H)
    as (Hsz & Hwf & Ht & Hw & Hs0 & Hs4 & Hflag & Hsum).
  repeat split; try assumption.
  - now apply Hsum.
  - apply has_tile_of_sum. specialize (Hsum H0). lia.
Qed.

(** X13.  In a game of size at least 2, [is_game_over] answers [True]
    exactly when [move] returns [False] in every one of the four
    directions: the game is declared over neither too early nor too
    late. *)
Theorem game_over_exactly_when_stuck (n : Z) (rnd : Draw) (g : Game2048) :
  2 <= n ->
  reachable n g ->
  (exists v, is_game_over g = Ok v)
  /\ (is_game_over g = Ok true
      <-> forall direction, valid_direction direction = true ->
            move direction rnd g = Ok (false, g)).
Proof.
  intros Hn Hreach.
  destruct (reachable_invariant _ _ Hreach)
    as (_ & Hwf & _ & _ & _ & _ & _ & Hsum).
  split; [rewrite (is_game_over_spec _ Hwf); eauto|]. split.
  - intros Hover direction _. now apply game_over_no_move.
  - intros Hstuck. apply (stuck_means_over rnd); [exact Hwf| |].
    + apply has_tile_of_sum. specialize (Hsum Hn). lia.
    + intros direction Hd. exists g. now apply Hstuck.
Qed.

Lemma reachable_states_keep_invariant_witness :
  size sample_new = 4
  /\ well_formed sample_new = true
  /\ (4 | score sample_new)
  /\ has_tile (board sample_new) = true.
Proof.
  assert (Hreach : reachable 4 sample_new).
  { apply (reach_new 4 (mkDraw 5 false) (mkDraw 9 true)). reflexivity. }
  destruct (reachable_states_keep_invariant 4 sample_new Hreach)
    as (H1 & H2 & _ & _ & _ & H6 & _ & H8).
  split; [exact H1|]. split; [exact H2|]. split; [exact H6|].
  apply H8. lia.
Defined.

Lemma game_over_exactly_when_stuck_witness :
  exists v, is_game_over sample_new = Ok v.
Proof.
  apply (game_over_exactly_when_stuck 4 (mkDraw 0 false) sample_new);
    [lia|].
  apply (reach_new 4 (mkDraw 5 false) (mkDraw 9 true)). reflexivity.
Defined.

(** ** The board size read from the configuration *)

Lemma config_size_range
    (int_of_text : string -> option Z) (text_ok : PyValue -> bool)
    (loaded : LoadResult) (n : Z) :
  get_board_size_from_config int_of_text text_ok loaded = inl n ->
  3 <= n <= 8.
Proof.
  unfold get_board_size_from_config, DEFAULT_SIZE.
  destruct loaded as [|ok| |config];
    try (intros Hret; injection Hret as <-; lia); try discriminate.
  { destruct ok; [intros Hret; injection Hret as <-; lia|discriminate]. }
  destruct config; try (intros Hret; injection Hret as <-; lia).
  destruct (is_none _ || is_empty_str _);
    [intros Hret; injection Hret as <-; lia|].
  cbv zeta.
  destruct (py_int _ _) as [z| | |]; try discriminate;
    destruct (text_ok (dict_get entries "board_size"));
    try (intros Hret; injection Hret as <-; lia); try discriminate;
    destruct (Z.leb_spec 3 z), (Z.leb_spec z 8); cbn [andb];
    destruct (text_ok (PyInt z));
    try (intros Hret; injection Hret as <-; lia); discriminate.
Qed.

Lemma config_uncaught_cases
    (int_of_text : string -> option Z) (text_ok : PyValue -> bool)
    (loaded : LoadResult) (e : Uncaught) :
  get_board_size_from_config int_of_text text_ok loaded = inr e ->
  (loaded = LoadOtherError /\ e = UncaughtLoadError)
  \/ (e = UncaughtOverflowError
      /\ exists entries,
           loaded = Loaded (PyDict entries)
           /\ py_int int_of_text (dict_get entries "board_size")
              = IntOverflowError)
  \/ (e = UncaughtMessageError
      /\ (loaded = LoadYAMLError false
          \/ exists entries,
               loaded = Loaded (PyDict entries)
               /\ text_ok (dict_get entries "board_size") = false)).
Proof.
  unfold get_board_size_from_config.
  destruct loaded as [|ok| |config]; try discriminate.
  - destruct ok; [discriminate|]. intros Hret. injection Hret as <-.
    right; right. split; [reflexivity|now left].
  - intros Hret. injection Hret as <-. now left.
  - destruct config; try discriminate.
    destruct (is_none _ || is_empty_str _); [discriminate|].
    cbv zeta.
    assert (Hhandler :
              (if text_ok (dict_get entries "board_size")
               then inl DEFAULT_SIZE else inr UncaughtMessageError) = inr e ->
              e = UncaughtMessageError
              /\ text_ok (dict_get entries "board_size") = false).
    { destruct (text_ok (dict_get entries "board_size"));
        [discriminate|]. intros Hret. injection Hret as <-. now split. }
    assert (Hmsg : (if text_ok (dict_get entries "board_size")
                    then inl DEFAULT_SIZE else inr UncaughtMessageError)
                   = inr e ->
              (Loaded (PyDict entries) = LoadOtherError
               /\ e = UncaughtLoadError)
              \/ (e = UncaughtOverflowError
                  /\ exists entries0,
                       Loaded (PyDict entries) = Loaded (PyDict entries0)
                       /\ py_int int_of_text
                            (dict_get entries0 "board_size")
                          = IntOverflowError)
              \/ (e = UncaughtMessageError
                  /\ (Loaded (PyDict entries) = LoadYAMLError false
                      \/ exists entries0,
                           Loaded (PyDict entries)
                           = Loaded (PyDict entries0)
                           /\ text_ok (dict_get entries0 "board_size")
                              = false))).
    { intros Hret. destruct (Hhandler Hret) as [-> Hbad].
      right; right. split; [reflexivity|]. right.
      exists entries. now split. }
    destruct (py_int _ _) as [z| | |] eqn:E.
    + destruct ((3 <=? z) && (z <=? 8)), (text_ok (PyInt z));
        try discriminate; exact Hmsg.
    + exact Hmsg.
    + exact Hmsg.
    + intros Hret. injection Hret as <-. right; left.
      split; [reflexivity|]. exists entries. now split.
Qed.

(** X14.  Whatever the configuration file holds, a size that
    [get_board_size_from_config] returns lies between 3 and 8.  A whole
    number under the key [board_size] whose text can be built is returned
    as it is when it lies in that range and replaced by 4 when it does not;
    one whose text cannot be built makes the message raise [ValueError]
    inside the [try], the handler raise again on the same value, and that
    exception leave the function.  The exceptions that leave the function
    are: a failure to open or parse other than a missing file or a YAML
    error, the [OverflowError] of [int()] on an infinite float, and the
    failure of a handler to build its message. *)
Theorem board_size_from_config_is_playable
    (int_of_text : string -> option Z) (text_ok : PyValue -> bool)
    (loaded : LoadResult) :
  (forall n, get_board_size_from_config int_of_text text_ok loaded = inl n ->
             3 <= n <= 8)
  /\ (forall entries z,
        loaded = Loaded (PyDict entries) ->
        dict_get entries "board_size" = PyInt z ->
        text_ok (PyInt z) = true ->
        get_board_size_from_config int_of_text text_ok loaded
        = inl (if (3 <=? z) && (z <=? 8) then z else 4))
  /\ (forall entries z,
        loaded = Loaded (PyDict entries) ->
        dict_get entries "board_size" = PyInt z ->
        text_ok (PyInt z) = false ->
        get_board_size_from_config int_of_text text_ok loaded
        = inr UncaughtMessageError)
  /\ (forall e,
        get_board_size_from_config int_of_text text_ok loaded = inr e ->
        (loaded = LoadOtherError /\ e = UncaughtLoadError)
        \/ (e = UncaughtOverflowError
            /\ exists entries,
                 loaded = Loaded (PyDict entries)
                 /\ py_int int_of_text (dict_get entries "board_size")
                    = IntOverflowError)
        \/ (e = UncaughtMessageError
            /\ (loaded = LoadYAMLError false
                \/ exists entries,
                     loaded = Loaded (PyDict entries)
                     /\ text_ok (dict_get entries "board_size") = false))).
Proof.
  split; [|split; [|split]].
  - intros n. apply config_size_range.
  - intros entries z -> Hget Hok. unfold get_board_size_from_config.
    rewrite Hget. cbn [is_none is_empty_str orb py_int]. cbv zeta.
    rewrite Hok. now destruct ((3 <=? z) && (z <=? 8)).
  - intros entries z -> Hget Hbad. unfold get_board_size_from_config.
    rewrite Hget. cbn [is_none is_empty_str orb py_int]. cbv zeta.
    rewrite Hbad. now destruct ((3 <=? z) && (z <=? 8)).
  - intros e. apply config_uncaught_cases.
Qed.

Lemma board_size_from_config_is_playable_witness :
  (3 <= 6 <= 8)
  /\ get_board_size_from_config (fun _ => None) sample_text_ok
       (Loaded (PyDict [(PyStr "board_size", PyInt 11)]))
     = inl 4
  /\ get_board_size_from_config (fun _ => None) sample_text_ok
       (Loaded (PyDict [(PyStr "board_size", PyInt (10 ^ 640))]))
     = inr UncaughtMessageError
  /\ ((LoadOtherError = LoadOtherError /\ UncaughtLoadError = UncaughtLoadError)
      \/ (UncaughtLoadError = UncaughtOverflowError
          /\ exists entries,
               LoadOtherError = Loaded (PyDict entries)
               /\ py_int (fun _ => None) (dict_get entries "board_size")
                  = IntOverflowError)
      \/ (UncaughtLoadError = UncaughtMessageError
          /\ (LoadOtherError = LoadYAMLError false
              \/ exists entries,
                   LoadOtherError = Loaded (PyDict entries)
                   /\ sample_text_ok (dict_get entries "board_size")
                      = false))).
Proof.
  destruct (board_size_from_config_is_playable (fun _ => None) sample_text_ok
              (Loaded (PyDict [(PyStr "board_size", PyInt 6)])))
    as (H1 & _ & _ & _).
  destruct (board_size_from_config_is_playable (fun _ => None) sample_text_ok
              (Loaded (PyDict [(PyStr "board_size", PyInt 11)])))
    as (_ & H2 & _ & _).
  destruct (board_size_from_config_is_playable (fun _ => None) sample_text_ok
              (Loaded (PyDict [(PyStr "board_size", PyInt (10 ^ 640))])))
    as (_ & _ & H3 & _).
  destruct (board_size_from_config_is_playable (fun _ => None) sample_text_ok
              LoadOtherError)
    as (_ & _ & _ & H4).
  split; [|split; [|split]].
  - apply H1. reflexivity.
  - apply (H2 [(PyStr "board_size", PyInt 11)] 11); reflexivity.
  - apply (H3 [(PyStr "board_size", PyInt (10 ^ 640))] (10 ^ 640));
      [reflexivity|reflexivity|].
    unfold sample_text_ok. rewrite Z.abs_eq by (apply Z.pow_nonneg; lia).
    apply Z.ltb_irrefl.
  - apply (H4 UncaughtLoadError). reflexivity.
Defined.

(** ** The loop of [main] *)

Lemma main_loop_sound (n : Z) (normalize : string -> string)
    (draws : nat -> Draw) (k : nat) :
  forall (inputs : list string) (t : nat) (g g' : Game2048) (e : LoopEnd),
    (length inputs <= k)%nat ->
    reachable n g ->
    main_loop normalize draws t inputs g = (e, g') ->
    reachable n g'
    /\ e <> EndEngineError
    /\ is_game_over g'
       = Ok (match e with EndGameOver => true | _ => false end).
Proof.
  induction k as [|k IH]; intros inputs t g g' e Hlen Hreach;
    pose proof (reachable_invariant _ _ Hreach) as (_ & Hwf & _);
    pose proof (is_game_over_spec _ Hwf) as Hover;
    destruct inputs as [|line rest]; cbn [main_loop]; try (simpl in Hlen; lia);
    rewrite Hover;
    destruct (negb (has_empty _ _) && negb (has_equal_pair _ _)) eqn:Hv;
    try (intros H; injection H as <- <-;
         repeat split; (assumption || discriminate)).
  cbv zeta. simpl in Hlen.
  destruct (String.eqb (normalize line) "q").
  { intros H; injection H as <- <-.
    repeat split; (assumption || discriminate). }
  destruct (valid_direction (normalize line)) eqn:Hd; cbn [negb].
  - destruct (move_keeps (fun _ => true) (normalize line) (draws t) g)
      as (r & g1 & E & _); try reflexivity; try assumption.
    { apply all_cells_spec. reflexivity. }
    rewrite E.
    assert (Hreach1 : reachable n g1) by exact (reach_move _ _ _ _ _ _ Hreach E).
    destruct r.
    + apply IH; [lia|exact Hreach1].
    + destruct rest as [|line' rest'].
      * intros H. injection H as <- <-.
        destruct (move_outcome _ _ _ _ _ Hwf E) as [[_ ->]|(Habs & _)];
          [|discriminate].
        repeat split; (assumption || discriminate).
      * apply IH; [simpl in Hlen; lia|exact Hreach1].
  - destruct rest as [|line' rest'].
    + intros H. injection H as <- <-.
      repeat split; (assumption || discriminate).
    + apply IH; [simpl in Hlen; lia|exact Hreach].
Qed.

(** X15.  Started on a state of a game, the loop of [main] never fails
    inside the engine: it ends because the game is over, because the player
    typed [q], or because the input ran out.  The state it ends in is again
    a state of that game, and it is over exactly when the loop ended for
    that reason. *)
Theorem main_loop_ends_in_a_game_state
    (n : Z) (normalize : string -> string) (draws : nat -> Draw) (t : nat)
    (inputs : list string) (g g' : Game2048) (e : LoopEnd) :
  reachable n g ->
  main_loop normalize draws t inputs g = (e, g') ->
  reachable n g'
  /\ e <> EndEngineError
  /\ is_game_over g'
     = Ok (match e with EndGameOver => true | _ => false end).
Proof.
  intros Hreach E.
  exact (main_loop_sound n normalize draws (length inputs) inputs t g g' e
           (le_n _) Hreach E).
Qed.

Lemma main_loop_ends_in_a_game_state_witness :
  reachable 4
    (snd (main_loop (fun s => s) (fun _ => mkDraw 0 false) 0
            ["x"; ""; "a"; "q"]%string sample_new))
  /\ is_game_over
       (snd (main_loop (fun s => s) (fun _ => mkDraw 0 false) 0
               ["x"; ""; "a"; "q"]%string sample_new))
     = Ok false.
Proof.
  assert (Hreach : reachable 4 sample_new).
  { apply (reach_new 4 (mkDraw 5 false) (mkDraw 9 true)). reflexivity. }
  destruct (main_loop_ends_in_a_game_state 4 (fun s => s)
              (fun _ => mkDraw 0 false) 0 ["x"; ""; "a"; "q"]%string
              sample_new
              (snd (main_loop (fun s => s) (fun _ => mkDraw 0 false) 0
                      ["x"; ""; "a"; "q"]%string sample_new))
              EndQuit Hreach eq_refl) as (H1 & _ & H3).
  split; [exact H1|exact H3].
Defined.

(** X16.  [main] as a whole.  Before the game starts the only exceptions
    that leave it are the ones [get_board_size_from_config] lets through:
    a failure to load, the [OverflowError] of [int()], or a handler that
    cannot build its message.
    Once the game runs the engine never raises: the loop ends because the
    game is over, on [q], or with the [EOFError] of [input()], in a state of
    a game whose size is between 3 and 8; if it ended because the game was
    over, [move] would return [False] in that state for every direction and
    every draw. *)
Theorem main_plays_a_sound_game
    (int_of_text : string -> option Z) (text_ok : PyValue -> bool)
    (loaded : LoadResult)
    (normalize : string -> string) (rnd1 rnd2 : Draw) (draws : nat -> Draw)
    (inputs : list string) :
  match main int_of_text text_ok loaded normalize rnd1 rnd2 draws inputs with
  | inr e =>
      e = UncaughtLoadError \/ e = UncaughtOverflowError
      \/ e = UncaughtMessageError
  | inl (e, g) =>
      e <> EndEngineError
      /\ exists n,
           3 <= n <= 8
           /\ reachable n g
           /\ (e = EndGameOver ->
               forall direction rnd, move direction rnd g = Ok (false, g))
  end.
Proof.
  unfold main.
  pose proof (config_size_range int_of_text text_ok loaded) as Hrange.
  pose proof (config_uncaught_cases int_of_text text_ok loaded) as Hraise.
  destruct (get_board_size_from_config int_of_text text_ok loaded) as [n|e].
  - specialize (Hrange n eq_refl).
    destruct (init_keeps (fun _ => true) n rnd1 rnd2) as (g0 & E & _);
      try reflexivity.
    rewrite E.
    assert (Hreach0 : reachable n g0) by exact (reach_new _ _ _ _ E).
    destruct (main_loop normalize draws 0 inputs g0) as [e g] eqn:El.
    destruct (main_loop_sound n normalize draws (length inputs) inputs 0
                g0 g e (le_n _) Hreach0 El) as (Hreach & Hne & Hover).
    split; [exact Hne|]. exists n. repeat split; try assumption; try lia.
    intros -> direction rnd.
    pose proof (reachable_invariant _ _ Hreach) as (_ & Hwf & _).
    now apply game_over_no_move.
  - destruct (Hraise e eq_refl) as [[_ ->]|[[-> _]|[-> _]]]; auto.
Qed.

(** ** The win flag and the tiles on the board *)

Lemma In_cells_iff (n : nat) (b : Board) (x : Z) :
  square n b ->
  ((exists row, In row b /\ In x row)
   <-> exists r c, (r < n)%nat /\ (c < n)%nat /\ at_ b r c = x).
Proof.
  intros Hsq. split.
  - intros (row & Hrow & Hx). apply (square_cell_of_In n b x Hsq).
    apply in_concat. eauto.
  - intros (r & c & Hr & Hc & <-). destruct Hsq as [Hl Hrow].
    assert (Hin : In (nth r b []) b) by (apply nth_In; lia).
    exists (nth r b []). split; [exact Hin|].
    apply nth_In. now rewrite (Hrow _ Hin).
Qed.

Lemma cells_orient (direction : string) (n : nat) (b : Board) (x : Z) :
  valid_direction direction = true ->
  square n b ->
  ((exists r c, (r < n)%nat /\ (c < n)%nat /\ at_ (orient direction b) r c = x)
   <-> exists r c, (r < n)%nat /\ (c < n)%nat /\ at_ b r c = x).
Proof.
  intros Hd Hsq. split.
  - intros (r & c & Hr & Hc & <-). rewrite (at_orient _ n) by assumption.
    repeat match goal with |- context [String.eqb ?a ?b] =>
                             destruct (String.eqb a b) end;
      eexists _, _; (split; [|split; [|reflexivity]]); lia.
  - intros (r & c & Hr & Hc & <-).
    destruct (valid_direction_cases _ Hd) as [->|[->|[->| ->]]].
    + exists c, r. rewrite (at_orient "w" n) by (reflexivity || assumption).
      repeat split; assumption.
    + exists c, (n - 1 - r)%nat.
      rewrite (at_orient "s" n) by (reflexivity || assumption || lia).
      cbn [String.eqb Ascii.eqb Bool.eqb].
      replace (n - 1 - (n - 1 - r))%nat with r by lia.
      repeat split; (assumption || lia).
    + exists r, c. rewrite (at_orient "a" n) by (reflexivity || assumption).
      repeat split; assumption.
    + exists r, (n - 1 - c)%nat.
      rewrite (at_orient "d" n) by (reflexivity || assumption || lia).
      cbn [String.eqb Ascii.eqb Bool.eqb].
      replace (n - 1 - (n - 1 - c))%nat with c by lia.
      repeat split; (assumption || lia).
Qed.

Lemma shows_orient (direction : string) (n : nat) (win : Z) (b : Board) :
  valid_direction direction = true ->
  square n b ->
  (shows win (orient direction b) <-> shows win b).
Proof.
  intros Hd Hsq. pose proof (square_orient direction _ _ Hsq) as HsqO.
  unfold shows. split; intros (row & x & Hrow & Hx & Hle).
  - destruct (proj1 (In_cells_iff n _ x HsqO)) as (r & c & H); [eauto|].
    destruct (proj1 (cells_orient _ n b x Hd Hsq)) as (r' & c' & H');
      [eauto|].
    destruct (proj2 (In_cells_iff n b x Hsq)) as (row' & H1 & H2); eauto.
  - destruct (proj1 (In_cells_iff n b x Hsq)) as (r & c & H); [eauto|].
    destruct (proj2 (cells_orient _ n b x Hd Hsq)) as (r' & c' & H');
      [eauto|].
    destruct (proj2 (In_cells_iff n _ x HsqO)) as (row' & H1 & H2); eauto.
Qed.

Lemma shows_unorient (direction : string) (n : nat) (win : Z) (R : Board) :
  valid_direction direction = true ->
  square n R ->
  (shows win (unorient direction R) <-> shows win R).
Proof.
  intros Hd Hsq.
  rewrite <- (orient_unorient direction n R Hsq) at 2.
  symmetry. apply (shows_orient _ n); [exact Hd|].
  now apply square_unorient.
Qed.

Lemma merge_pairs_keeps_big (c : list Z) (x : Z) :
  (forall y, In y c -> 0 <= y) ->
  In x c -> exists y, In y (merge_pairs c) /\ x <= y.
Proof.
  induction c as [| a | a rest IH | a b rest Hab IH] using merge_scan_ind;
    intros Hnn Hx.
  - destruct Hx.
  - exists x. split; [exact Hx|lia].
  - rewrite merge_pairs_eq.
    assert (0 <= a) by (apply Hnn; now left).
    destruct Hx as [<-|[<-|Hx]].
    + exists (a * 2). split; [now left|lia].
    + exists (a * 2). split; [now left|lia].
    + destruct IH as (y & Hy & Hle); [|exact Hx|].
      * intros z Hz. apply Hnn. now right; right.
      * exists y. split; [now right|exact Hle].
  - rewrite merge_pairs_neq by assumption.
    destruct Hx as [<-|Hx].
    + exists a. split; [now left|lia].
    + destruct IH as (y & Hy & Hle); [|exact Hx|].
      * intros z Hz. apply Hnn. now right.
      * exists y. split; [now right|exact Hle].
Qed.

Lemma merge_pairs_origin (c : list Z) (y : Z) :
  In y (merge_pairs c) ->
  In y c \/ (exists a, In a c /\ y = a * 2 /\ In y (merge_gains c)).
Proof.
  induction c as [| a | a rest IH | a b rest Hab IH] using merge_scan_ind;
    intros Hy.
  - destruct Hy.
  - now left.
  - rewrite merge_pairs_eq in Hy. rewrite merge_gains_eq.
    destruct Hy as [<-|Hy].
    + right. exists a. repeat split; now left.
    + destruct (IH Hy) as [Hin|(a' & Ha' & E & Hg)].
      * left. now right; right.
      * right. exists a'. repeat split; [now right; right|exact E|now right].
  - rewrite merge_pairs_neq in Hy by assumption.
    rewrite merge_gains_neq by assumption.
    destruct Hy as [<-|Hy]; [left; now left|].
    destruct (IH Hy) as [Hin|(a' & Ha' & E & Hg)].
    + left. now right.
    + right. exists a'. repeat split; [now right|exact E|exact Hg].
Qed.

Lemma gains_in_merge_pairs (c : list Z) (g : Z) :
  In g (merge_gains c) -> In g (merge_pairs c).
Proof.
  induction c as [| a | a rest IH | a b rest Hab IH] using merge_scan_ind;
    intros Hg; try (now destruct Hg).
  - rewrite merge_gains_eq in Hg. rewrite merge_pairs_eq.
    destruct Hg as [<-|Hg]; [now left|right; now apply IH].
  - rewrite merge_gains_neq in Hg by assumption.
    rewrite merge_pairs_neq by assumption. right. now apply IH.
Qed.

Lemma tile_below_2048 (a : Z) :
  is_tile a = true -> 2048 <= a * 2 -> a < 2048 -> a = 1024.
Proof.
  intros Ht Hlo Hhi. apply is_tile_spec in Ht as [->|(k & Hk & ->)]; [lia|].
  assert (Hk10 : 10 <= k).
  { destruct (Z.le_gt_cases 10 k) as [H|H]; [exact H|].
    assert (2 ^ k <= 2 ^ 9) by (apply Z.pow_le_mono_r; lia).
    change (2 ^ 9) with 512 in *. lia. }
  assert (Hk11 : k < 11).
  { destruct (Z.lt_ge_cases k 11) as [H|H]; [exact H|].
    assert (2 ^ 11 <= 2 ^ k) by (apply Z.pow_le_mono_r; lia).
    change (2 ^ 11) with 2048 in *. lia. }
  now replace k with 10 by lia.
Qed.

Lemma shows_reduce_row (s : Z) (row : list Z) :
  forallb is_tile row = true ->
  ((exists y, In y (reduce_row s row) /\ 2048 <= y)
   <-> (exists x, In x row /\ 2048 <= x) \/ row_hit 2048 row = true).
Proof.
  intros Ht. rewrite forallb_forall in Ht.
  assert (Hc : forall x, In x (compress row) -> In x row /\ is_tile x = true).
  { intros x Hx. apply filter_In in Hx as [Hx _]. auto. }
  split.
  - intros (y & Hy & Hle). unfold reduce_row, pad in Hy.
    apply in_app_or in Hy as [Hy|Hy];
      [|apply repeat_spec in Hy; lia].
    destruct (merge_pairs_origin _ _ Hy) as [Hin|(a & Ha & -> & Hg)].
    + left. exists y. split; [now apply Hc|exact Hle].
    + destruct (Hc a Ha) as [Har Hat].
      destruct (Z.lt_ge_cases a 2048) as [Hlt|Hge].
      * right. rewrite (tile_below_2048 a Hat Hle Hlt) in Hg.
        unfold row_hit. apply existsb_exists. exists 2048.
        split; [exact Hg|reflexivity].
      * left. exists a. split; [exact Har|lia].
  - intros [(x & Hx & Hle)|Hhit].
    + destruct (merge_pairs_keeps_big (compress row) x) as (y & Hy & Hxy).
      * intros z Hz. destruct (Hc z Hz) as [_ Hzt].
        apply is_tile_nonneg in Hzt. unfold nonneg in Hzt.
        now apply Z.leb_le.
      * apply filter_In. split; [exact Hx|].
        unfold nonzero. apply negb_true_iff, Z.eqb_neq. lia.
      * exists y. split; [|lia]. unfold reduce_row, pad.
        apply in_or_app. now left.
    + unfold row_hit in Hhit. apply existsb_exists in Hhit as (v & Hv & E).
      apply Z.eqb_eq in E. subst v. exists 2048. split; [|lia].
      unfold reduce_row, pad. apply in_or_app. left.
      now apply gains_in_merge_pairs.
Qed.

Lemma shows_reduce (s : Z) (b : Board) :
  all_cells is_tile b = true ->
  (shows 2048 (map (reduce_row s) b)
   <-> shows 2048 b \/ board_hit 2048 b = true).
Proof.
  intros Ht. unfold all_cells in Ht. rewrite forallb_forall in Ht.
  unfold shows, board_hit. rewrite existsb_exists. split.
  - intros (row' & y & Hrow' & Hy & Hle).
    apply in_map_iff in Hrow' as (row & <- & Hrow).
    destruct (proj1 (shows_reduce_row s row (Ht row Hrow)))
      as [(x & Hx & Hxle)|Hhit]; eauto 6.
  - intros [(row & x & Hrow & Hx & Hle)|(row & Hrow & Hhit)].
    + destruct (proj2 (shows_reduce_row s row (Ht row Hrow)))
        as (y & Hy & Hyle); [eauto|].
      exists (reduce_row s row), y. repeat split; try assumption.
      now apply in_map.
    + destruct (proj2 (shows_reduce_row s row (Ht row Hrow)))
        as (y & Hy & Hyle); [now right|].
      exists (reduce_row s row), y. repeat split; try assumption.
      now apply in_map.
Qed.

Lemma shows_place (n : nat) (b : Board) (r c : nat) (v : Z) :
  square n b -> (r < n)%nat -> (c < n)%nat ->
  at_ b r c = 0 -> v < 2048 ->
  (shows 2048 (place b r c v) <-> shows 2048 b).
Proof.
  intros Hsq Hr Hc Hz Hv.
  pose proof (square_place n b r c v Hsq Hr) as HsqP.
  unfold shows. split; intros (row & x & Hrow & Hx & Hle).
  - destruct (proj1 (In_cells_iff n _ x HsqP)) as (r' & c' & Hr' & Hc' & E);
      [eauto|].
    rewrite (at_place n) in E by assumption.
    destruct ((r' =? r)%nat && (c' =? c)%nat); [lia|].
    destruct (proj2 (In_cells_iff n b x Hsq)) as (row' & H1 & H2); eauto 6.
  - destruct (proj1 (In_cells_iff n b x Hsq)) as (r' & c' & Hr' & Hc' & E);
      [eauto|].
    destruct (proj2 (In_cells_iff n _ x HsqP)) as (row' & H1 & H2); [|eauto].
    exists r', c'. repeat split; try assumption.
    rewrite (at_place n) by assumption.
    destruct (Nat.eqb_spec r' r) as [->|_]; [|exact E].
    destruct (Nat.eqb_spec c' c) as [->|_]; [|exact E].
    cbn [andb]. lia.
Qed.

Lemma flag_invariant_move (direction : string) (rnd : Draw)
    (g g' : Game2048) (r : bool) :
  well_formed g = true ->
  all_cells is_tile (board g) = true ->
  win_value g = 2048 ->
  (game_won g = true <-> shows 2048 (board g)) ->
  move direction rnd g = Ok (r, g') ->
  (game_won g' = true <-> shows 2048 (board g')).
Proof.
  intros Hwf Ht Hw Hinv E. pose proof (proj1 (squareb_spec _ _) Hwf) as Hsq.
  destruct (move_outcome _ _ _ _ _ Hwf E)
    as [[_ ->]|(_ & Hd & _ & r0 & c0 & Hr0 & Hc0 & Hz & ->)];
    [exact Hinv|].
  cbn [board set_board game_won scored set_game_won set_score].
  rewrite (shows_place (Z.to_nat (size g))); try assumption.
  2:{ now apply square_shifted. }
  2:{ destruct (drawn_value_cases rnd) as [-> | ->]; lia. }
  unfold shifted.
  rewrite (shows_unorient _ (Z.to_nat (size g)))
    by (try apply square_reduce; try apply square_orient; assumption).
  rewrite shows_reduce by now apply all_cells_orient.
  rewrite (shows_orient _ (Z.to_nat (size g))) by assumption.
  rewrite Hw, orb_true_iff, Hinv. reflexivity.
Qed.

Lemma flag_invariant_add (rnd : Draw) (g g' : Game2048) :
  well_formed g = true ->
  (game_won g = true <-> shows 2048 (board g)) ->
  add_new_tile rnd g = Ok g' ->
  (game_won g' = true <-> shows 2048 (board g')).
Proof.
  intros Hwf Hinv E. pose proof (proj1 (squareb_spec _ _) Hwf) as Hsq.
  destruct (add_new_tile_spec rnd g Hwf)
    as [[_ E']|(r0 & c0 & Hr0 & Hc0 & Hz & E')];
    rewrite E' in E; injection E as <-; [exact Hinv|].
  cbn [board set_board game_won].
  rewrite (shows_place (Z.to_nat (size g))); try assumption.
  destruct (drawn_value_cases rnd) as [-> | ->]; lia.
Qed.

Lemma shows_zeros (n m : nat) : ~ shows 2048 (repeat (repeat 0 m) n).
Proof.
  intros (row & x & Hrow & Hx & Hle).
  apply repeat_spec in Hrow. subst row. apply repeat_spec in Hx. lia.
Qed.

Lemma flag_invariant (n : Z) (g : Game2048) :
  reachable n g -> (game_won g = true <-> shows 2048 (board g)).
Proof.
  induction 1 as [rnd1 rnd2 g E|direction rnd g g' r Hreach IH E
                 |rnd g g' Hreach IH E].
  - unfold __init__ in E. cbv zeta in E.
    set (g0 := mkGame n _ 0 2048 false) in E.
    assert (Hwf0 : well_formed g0 = true) by apply squareb_zeros.
    assert (H0 : game_won g0 = true <-> shows 2048 (board g0)).
    { split; [discriminate|]. intros H. now apply shows_zeros in H. }
    destruct (add_new_tile rnd1 g0) as [g1| |] eqn:E1; try discriminate.
    cbn [bind] in E.
    destruct (add_new_tile_keeps (fun _ => true) rnd1 g0)
      as (g1' & E1' & Hwf1 & _); try reflexivity; try assumption.
    { apply all_cells_spec. reflexivity. }
    rewrite E1 in E1'. injection E1' as <-.
    apply (flag_invariant_add rnd2 g1); [exact Hwf1| |exact E].
    now apply (flag_invariant_add rnd1 g0).
  - destruct (reachable_invariant _ _ Hreach) as (_ & Hwf & Ht & Hw & _).
    now apply (flag_invariant_move direction rnd g g' r).
  - destruct (reachable_invariant _ _ Hreach) as (_ & Hwf & _).
    now apply (flag_invariant_add rnd g g').
Qed.

(** X17.  In every state of a game the win flag is up exactly when some
    cell of the board is 2048 or more: the flag goes up with the merge that
    makes the first 2048, and such a tile can only leave the board by
    merging into a larger one. *)
Theorem win_flag_matches_the_board (n : Z) (g : Game2048) :
  reachable n g ->
  (game_won g = true
   <-> exists row x, In row (board g) /\ In x row /\ 2048 <= x).
Proof. apply flag_invariant. Qed.

Lemma win_flag_matches_the_board_witness :
  game_won sample_new = true
  <-> exists row x, In row (board sample_new) /\ In x row /\ 2048 <= x.
Proof.
  apply (win_flag_matches_the_board 4 sample_new).
  apply (reach_new 4 (mkDraw 5 false) (mkDraw 9 true)). reflexivity.
Defined.
